(** * desktop_cube.c: a rotating cube drawn on an X11 desktop-type window

    A shallow embedding of [src/desktop_cube.c] and the properties of its
    context setup, render loop and teardown.

    - C [int] and [long] values are integers of [Z] normalised to their
      two's-complement range; [float] and [double] values are IEEE 754
      numbers of the Standard Library's [SpecFloat], at precision 24 and 53.
    - Calls into Xlib, GLX, GLEW, OpenGL and libc are recorded, in order and
      with their arguments, in a trace of [event]s; what the outside world
      answers (handles, the monitor list, clock readings, signals) is an
      explicit parameter of each function.
    - The program's memory is a [Machine]: the [AppData] of [main] and the
      three global variables. *)

From Stdlib Require Import ZArith List String Ascii Bool Lia QArith Qround Qabs.
From Stdlib Require Import Sorted.
From Stdlib Require Import Floats.SpecFloat.
Import ListNotations.

Local Open Scope Z_scope.

(* ================================================================= *)
(** ** Machine integers *)

Module CInt.

(** Normalisation of an integer to the signed [w]-bit range. *)
Definition wrap_signed (w : Z) (z : Z) : Z :=
  (z + 2 ^ (w - 1)) mod 2 ^ w - 2 ^ (w - 1).

Definition to_int (z : Z) : Z := wrap_signed 32 z.
Definition to_long (z : Z) : Z := wrap_signed 64 z.
Definition to_uint (z : Z) : Z := z mod 2 ^ 32.

Definition INT_MAX : Z := 2147483647.
Definition INT_MIN : Z := -2147483648.

End CInt.

(* ================================================================= *)
(** ** Floating point: binary32 ([float]) and binary64 ([double]) *)

Module Flt.

(** Re-rounding of a number to the format [(prec, emax)]: the conversions
    between [float] and [double]. *)
Definition convert (prec emax : Z) (x : spec_float) : spec_float :=
  match x with
  | S754_finite s m e => binary_round prec emax s m e
  | _ => x
  end.

(** C's [fmod]: the remainder of the division truncated toward zero; it is
    exact, carries the sign of [x], is NaN for an infinite [x] or a zero
    [y], and is [x] for a finite [x] and an infinite [y]. *)
Definition fmod (prec emax : Z) (x y : spec_float) : spec_float :=
  match x, y with
  | S754_nan, _ | _, S754_nan => S754_nan
  | S754_infinity _, _ => S754_nan
  | _, S754_zero _ => S754_nan
  | S754_zero _, _ => x
  | S754_finite _ _ _, S754_infinity _ => x
  | S754_finite sx mx ex, S754_finite _ my ey =>
      let ez := Z.min ex ey in
      let nx := Zpos (fst (shl_align mx ex ez)) in
      let ny := Zpos (fst (shl_align my ey ez)) in
      binary_normalize prec emax (cond_Zopp sx (Z.rem nx ny)) ez sx
  end.

Definition is_finite (x : spec_float) : bool :=
  match x with
  | S754_zero _ | S754_finite _ _ _ => true
  | _ => false
  end.

(** The rational a finite number denotes (0 for the others). *)
Definition value (x : spec_float) : Q :=
  match x with
  | S754_finite s m e => inject_Z (cond_Zopp s (Zpos m)) * Qpower 2 e
  | _ => 0
  end%Q.

Definition eqb (x y : spec_float) : bool :=
  match x, y with
  | S754_zero s, S754_zero s' => Bool.eqb s s'
  | S754_infinity s, S754_infinity s' => Bool.eqb s s'
  | S754_nan, S754_nan => true
  | S754_finite s m e, S754_finite s' m' e' =>
      Bool.eqb s s' && Pos.eqb m m' && Z.eqb e e'
  | _, _ => false
  end.

End Flt.

Module F32.
Definition prec : Z := 24.
Definition emax : Z := 128.
Definition add : spec_float -> spec_float -> spec_float := SFadd prec emax.
Definition div : spec_float -> spec_float -> spec_float := SFdiv prec emax.
(** [(float) z] for an integer [z]. *)
Definition of_Z (z : Z) : spec_float := binary_normalize prec emax z 0 false.
(** [(float) d] for a [double] [d]. *)
Definition of_double : spec_float -> spec_float := Flt.convert prec emax.
(** The literal [m * 2^e], rounded. *)
Definition lit (m e : Z) : spec_float := binary_normalize prec emax m e false.
End F32.

Module F64.
Definition prec : Z := 53.
Definition emax : Z := 1024.
Definition of_Z (z : Z) : spec_float := binary_normalize prec emax z 0 false.
(** [(double) f] for a [float] [f]. *)
Definition of_float : spec_float -> spec_float := Flt.convert prec emax.
Definition fmod : spec_float -> spec_float -> spec_float := Flt.fmod prec emax.
Definition lit (m e : Z) : spec_float := binary_normalize prec emax m e false.
End F64.

(* ================================================================= *)
(** ** Rotation angles

<<
  float rotation_angle_x = 0.0f;
  float rotation_angle_y = 0.0f;

  void update_rotation_angles(float *angle_x, float *angle_y) {
      *angle_x = fmod( *angle_x + 0.5f, 360.0f);
      *angle_y = fmod( *angle_y + 0.5f, 360.0f);
  }
>>
    The sum is a [float] addition; [fmod] takes and returns [double], so
    both arguments are widened and the result is narrowed on assignment. *)

Definition f_0_0 : spec_float := S754_zero false.
Definition f_0_5 : spec_float := Eval cbv in F32.lit 1 (-1).
Definition f_360_0 : spec_float := Eval cbv in F32.lit 360 0.

Definition advance_angle (a : spec_float) : spec_float :=
  F32.of_double (F64.fmod (F64.of_float (F32.add a f_0_5)) (F64.of_float f_360_0)).

Definition update_rotation_angles (angles : spec_float * spec_float)
  : spec_float * spec_float :=
  let '(angle_x, angle_y) := angles in
  (advance_angle angle_x, advance_angle angle_y).


(* ================================================================= *)
(** ** Data of the program *)

(** [XineramaScreenInfo] of <X11/extensions/Xinerama.h>: a screen number
    ([int]) and the rectangle of one monitor (four [short]s). *)
Record XineramaScreenInfo : Type := {
  screen_number : Z;
  x_org : Z;
  y_org : Z;
  width : Z;
  height : Z
}.

(** The members of [XVisualInfo] the program reads. *)
Record XVisualInfo : Type := {
  visual : Z;
  depth : Z
}.

(** [AppData].  Handles and pointers to opaque objects are integers, 0 being
    [NULL] or [None]; the two pointers the program dereferences are [option]s
    of what they point to, [None] being [NULL]. *)
Record AppData : Type := {
  display : Z;
  window : Z;
  screen_info : option (list XineramaScreenInfo);
  visual_info : option XVisualInfo;
  glx_context : Z;
  color_map : Z;
  vertex_buffer : Z;
  index_buffer : Z;
  color_buffer : Z;
  num_screens : Z
}.

(** [AppData app_data = {0};] *)
Definition app_data_zero : AppData :=
  {| display := 0; window := 0; screen_info := None; visual_info := None;
     glx_context := 0; color_map := 0; vertex_buffer := 0; index_buffer := 0;
     color_buffer := 0; num_screens := 0 |}.

Definition set_display (v : Z) (a : AppData) : AppData :=
  {| display := v; window := window a; screen_info := screen_info a;
     visual_info := visual_info a; glx_context := glx_context a;
     color_map := color_map a; vertex_buffer := vertex_buffer a;
     index_buffer := index_buffer a; color_buffer := color_buffer a;
     num_screens := num_screens a |}.

Definition set_window (v : Z) (a : AppData) : AppData :=
  {| display := display a; window := v; screen_info := screen_info a;
     visual_info := visual_info a; glx_context := glx_context a;
     color_map := color_map a; vertex_buffer := vertex_buffer a;
     index_buffer := index_buffer a; color_buffer := color_buffer a;
     num_screens := num_screens a |}.

Definition set_screen_info (v : option (list XineramaScreenInfo)) (a : AppData)
  : AppData :=
  {| display := display a; window := window a; screen_info := v;
     visual_info := visual_info a; glx_context := glx_context a;
     color_map := color_map a; vertex_buffer := vertex_buffer a;
     index_buffer := index_buffer a; color_buffer := color_buffer a;
     num_screens := num_screens a |}.

Definition set_visual_info (v : option XVisualInfo) (a : AppData) : AppData :=
  {| display := display a; window := window a; screen_info := screen_info a;
     visual_info := v; glx_context := glx_context a;
     color_map := color_map a; vertex_buffer := vertex_buffer a;
     index_buffer := index_buffer a; color_buffer := color_buffer a;
     num_screens := num_screens a |}.

Definition set_glx_context (v : Z) (a : AppData) : AppData :=
  {| display := display a; window := window a; screen_info := screen_info a;
     visual_info := visual_info a; glx_context := v;
     color_map := color_map a; vertex_buffer := vertex_buffer a;
     index_buffer := index_buffer a; color_buffer := color_buffer a;
     num_screens := num_screens a |}.

Definition set_color_map (v : Z) (a : AppData) : AppData :=
  {| display := display a; window := window a; screen_info := screen_info a;
     visual_info := visual_info a; glx_context := glx_context a;
     color_map := v; vertex_buffer := vertex_buffer a;
     index_buffer := index_buffer a; color_buffer := color_buffer a;
     num_screens := num_screens a |}.

Definition set_vertex_buffer (v : Z) (a : AppData) : AppData :=
  {| display := display a; window := window a; screen_info := screen_info a;
     visual_info := visual_info a; glx_context := glx_context a;
     color_map := color_map a; vertex_buffer := v;
     index_buffer := index_buffer a; color_buffer := color_buffer a;
     num_screens := num_screens a |}.

Definition set_index_buffer (v : Z) (a : AppData) : AppData :=
  {| display := display a; window := window a; screen_info := screen_info a;
     visual_info := visual_info a; glx_context := glx_context a;
     color_map := color_map a; vertex_buffer := vertex_buffer a;
     index_buffer := v; color_buffer := color_buffer a;
     num_screens := num_screens a |}.

Definition set_color_buffer (v : Z) (a : AppData) : AppData :=
  {| display := display a; window := window a; screen_info := screen_info a;
     visual_info := visual_info a; glx_context := glx_context a;
     color_map := color_map a; vertex_buffer := vertex_buffer a;
     index_buffer := index_buffer a; color_buffer := v;
     num_screens := num_screens a |}.

Definition set_num_screens (v : Z) (a : AppData) : AppData :=
  {| display := display a; window := window a; screen_info := screen_info a;
     visual_info := visual_info a; glx_context := glx_context a;
     color_map := color_map a; vertex_buffer := vertex_buffer a;
     index_buffer := index_buffer a; color_buffer := color_buffer a;
     num_screens := v |}.

(** The memory of the process: [main]'s [app_data] and the globals
    [terminate], [rotation_angle_x] and [rotation_angle_y]. *)
Record Machine : Type := {
  app_data : AppData;
  terminate : Z;
  rotation_angle_x : spec_float;
  rotation_angle_y : spec_float
}.

Definition with_app_data (f : AppData -> AppData) (m : Machine) : Machine :=
  {| app_data := f (app_data m); terminate := terminate m;
     rotation_angle_x := rotation_angle_x m;
     rotation_angle_y := rotation_angle_y m |}.

Definition with_terminate (v : Z) (m : Machine) : Machine :=
  {| app_data := app_data m; terminate := v;
     rotation_angle_x := rotation_angle_x m;
     rotation_angle_y := rotation_angle_y m |}.

Definition with_rotation (r : spec_float * spec_float) (m : Machine) : Machine :=
  {| app_data := app_data m; terminate := terminate m;
     rotation_angle_x := fst r; rotation_angle_y := snd r |}.

(** The memory when [main] starts, after [app_data] is zeroed. *)
Definition machine_start : Machine :=
  {| app_data := app_data_zero; terminate := 0;
     rotation_angle_x := f_0_0; rotation_angle_y := f_0_0 |}.

(** [struct timespec]. *)
Record timespec : Type := {
  tv_sec : Z;
  tv_nsec : Z
}.

(* ================================================================= *)
(** ** Calls to the outside world *)

Inductive gl_target : Type := GL_ARRAY_BUFFER | GL_ELEMENT_ARRAY_BUFFER.
Inductive gl_capability : Type := GL_DEPTH_TEST | GL_MULTISAMPLE.
Inductive gl_client_array : Type := GL_VERTEX_ARRAY | GL_COLOR_ARRAY.
Inductive gl_matrix : Type := GL_PROJECTION | GL_MODELVIEW.
(** The three global arrays uploaded to buffers; the palette of [colors]
    comes from [nord.h]. *)
Inductive static_array : Type := vertices | indices | colors.

(** One constructor per library function the program calls, carrying the
    arguments that vary.  [ReadTerminate v] is the read of the volatile
    [terminate] that found [v]. *)
Inductive event : Type :=
| Signal (signum : Z)
| XOpenDisplay
| XineramaQueryScreens (dpy : Z)
| GlXChooseVisual (dpy : Z)
| XCreateColormap (dpy root vis : Z)
| XCreateWindow (dpy root x y w h border dep vis cmap : Z)
| XStoreName (dpy win : Z) (name : string)
| GlXCreateContext (dpy : Z) (vi : XVisualInfo)
| XInternAtom (dpy : Z) (name : string)
| XChangeProperty (dpy win property data : Z)
| XMapWindow (dpy win : Z)
| GlXMakeCurrent (dpy win ctx : Z)
| GlewInit
| GlGenBuffers
| GlBindBuffer (target : gl_target) (buffer : Z)
| GlBufferData (target : gl_target) (data : static_array)
| GlVertexPointer
| GlColorPointer
| GlEnable (cap : gl_capability)
| GlEnableClientState (arr : gl_client_array)
| GlClearColor
| Fprintf (msg : string)
| GlDeleteBuffers (buffer : Z)
| XFreeColormap (dpy cmap : Z)
| XDestroyWindow (dpy win : Z)
| GlXDestroyContext (dpy ctx : Z)
| XFreeVisualInfo (vi : XVisualInfo)
| XFreeScreenInfo (screens : list XineramaScreenInfo)
| XCloseDisplay (dpy : Z)
| ClockGettime
| GlClear
| GlViewport (x y w h : Z)
| GlMatrixMode (mode : gl_matrix)
| GlLoadIdentity
| GluPerspective (fovy aspect z_near z_far : spec_float)
| GluLookAt (eye center up : Z * Z * Z)
| GlRotatef (angle x y z : spec_float)
| GlDrawElements (count : Z)
| GlXSwapBuffers (dpy win : Z)
| Usleep (usec : Z)
| XFlush (dpy : Z)
| ReadTerminate (v : Z)
| OutOfBounds
| Exit (status : Z).

(** What the X server and the GL implementation answer during [initialize]:
    a zero handle, [None] or [false] is the failure of that call. *)
Record XEnv : Type := {
  env_display : Z;
  env_screens : option (list XineramaScreenInfo);
  env_root : Z;
  env_visual : option XVisualInfo;
  env_colormap : Z;
  env_window : Z;
  env_glx_context : Z;
  env_atom : string -> Z;
  env_glew_ok : bool;
  env_vertex_buffer : Z;
  env_index_buffer : Z;
  env_color_buffer : Z
}.

(** What happens around one frame: the two readings of the monotonic clock
    and the signals delivered while the frame runs. *)
Record FrameInput : Type := {
  start_time : timespec;
  end_time : timespec;
  signals : list Z
}.

Definition SIGINT : Z := 2.
Definition SIGTERM : Z := 15.
Definition EXIT_SUCCESS : Z := 0.
Definition EXIT_FAILURE : Z := 1.
Definition APP_TITLE : string := "OPENGL DESKTOP".
Definition LF : string := String "010"%char EmptyString.

(* ================================================================= *)
(** ** Programs: memory passing with a trace of calls *)

Definition Prog (A : Type) : Type := Machine -> A * Machine * list event.

Definition result {A : Type} (r : A * Machine * list event) : A := fst (fst r).
Definition final {A : Type} (r : A * Machine * list event) : Machine := snd (fst r).
Definition events {A : Type} (r : A * Machine * list event) : list event := snd r.

Definition ret {A : Type} (a : A) : Prog A := fun m => (a, m, []).

Definition bind {A B : Type} (p : Prog A) (k : A -> Prog B) : Prog B :=
  fun m =>
    let r1 := p m in
    let r2 := k (result r1) (final r1) in
    (result r2, final r2, events r1 ++ events r2).

Declare Scope prog_scope.
Delimit Scope prog_scope with prog.
Notation "x <- p ;; k" := (bind p (fun x => k))
  (at level 61, p at next level, right associativity) : prog_scope.
Notation "p ;; k" := (bind p (fun _ => k))
  (at level 61, right associativity) : prog_scope.
Local Open Scope prog_scope.

(** A call whose answer is not used. *)
Definition call (e : event) : Prog unit := fun m => (tt, m, [e]).
(** [app_data->f]. *)
Definition field {A : Type} (f : AppData -> A) : Prog A :=
  fun m => (f (app_data m), m, []).
(** [app_data->f = v]. *)
Definition store (set : AppData -> AppData) : Prog unit :=
  fun m => (tt, with_app_data set m, []).
Definition when (b : bool) (p : Prog unit) : Prog unit :=
  if b then p else ret tt.
Definition nonzero (z : Z) : bool := negb (z =? 0).
Definition is_some {A : Type} (o : option A) : bool :=
  match o with Some _ => true | None => false end.

Fixpoint sequence (ps : list (Prog unit)) : Prog unit :=
  match ps with
  | [] => ret tt
  | p :: ps' => p ;; sequence ps'
  end.

(* ================================================================= *)
(** ** [signal_handler] *)

Definition signal_handler (signum : Z) : Prog unit :=
  if (signum =? SIGINT) || (signum =? SIGTERM)
  then fun m => (tt, with_terminate 1 m, [])
  else ret tt.

(** The handler run for each of a list of delivered signals. *)
Definition deliver (sigs : list Z) : Prog unit :=
  sequence (map signal_handler sigs).

(* ================================================================= *)
(** ** [cleanup] *)

(** Each statement tests a member of the context and, when it is set, calls
    the function that releases it.  [glDeleteBuffers] is given the address
    of the member as a pointer to constant names and [XFree] the pointer
    itself: no call can write the context, so the program is made of reads
    and calls only.  After [XFree] the member still holds the pointer; here
    it still holds what the pointer pointed to. *)
Definition cleanup : Prog unit :=
  (b <- field vertex_buffer ;; when (nonzero b) (call (GlDeleteBuffers b))) ;;
  (b <- field index_buffer ;; when (nonzero b) (call (GlDeleteBuffers b))) ;;
  (b <- field color_buffer ;; when (nonzero b) (call (GlDeleteBuffers b))) ;;
  (c <- field color_map ;; d <- field display ;;
   when (nonzero c) (call (XFreeColormap d c))) ;;
  (w <- field window ;; d <- field display ;;
   when (nonzero w) (call (XDestroyWindow d w))) ;;
  (c <- field glx_context ;; d <- field display ;;
   when (nonzero c) (call (GlXDestroyContext d c))) ;;
  (v <- field visual_info ;;
   match v with Some vi => call (XFreeVisualInfo vi) | None => ret tt end) ;;
  (s <- field screen_info ;;
   match s with Some l => call (XFreeScreenInfo l) | None => ret tt end) ;;
  (d <- field display ;; when (nonzero d) (call (XCloseDisplay d))).

(* ================================================================= *)
(** ** [initialize] *)

(** One turn of the loop over the monitors:
<<
  combined_width += screen_info[i].width;
  combined_height += (screen_info[i].height > combined_height)
                         ? screen_info[i].height : 0;
>>  *)
Definition combine_screen (acc : Z * Z) (s : XineramaScreenInfo) : Z * Z :=
  let combined_width := fst acc in
  let combined_height := snd acc in
  (CInt.to_int (combined_width + width s),
   CInt.to_int
     (combined_height + (if height s >? combined_height then height s else 0))).

(** [(combined_width, combined_height)] after the loop, both starting at 0. *)
Definition combined_size (screens : list XineramaScreenInfo) : Z * Z :=
  fold_left combine_screen screens (0, 0).

(** [fprintf(stderr, msg); return -1;] *)
Definition fail (msg : string) : Prog Z :=
  call (Fprintf (msg ++ LF)%string) ;; ret (-1).

Definition NET_WM_WINDOW_TYPE : string := "_NET_WM_WINDOW_TYPE".
Definition NET_WM_WINDOW_TYPE_DESKTOP : string := "_NET_WM_WINDOW_TYPE_DESKTOP".

(** The uploads and state settings that follow [glewInit]. *)
Definition setup_buffers (env : XEnv) : Prog unit :=
  call GlGenBuffers ;; store (set_vertex_buffer (env_vertex_buffer env)) ;;
  vb <- field vertex_buffer ;;
  call (GlBindBuffer GL_ARRAY_BUFFER vb) ;;
  call (GlBufferData GL_ARRAY_BUFFER vertices) ;;
  call GlVertexPointer ;;
  call GlGenBuffers ;; store (set_index_buffer (env_index_buffer env)) ;;
  ib <- field index_buffer ;;
  call (GlBindBuffer GL_ELEMENT_ARRAY_BUFFER ib) ;;
  call (GlBufferData GL_ELEMENT_ARRAY_BUFFER indices) ;;
  call GlGenBuffers ;; store (set_color_buffer (env_color_buffer env)) ;;
  cb <- field color_buffer ;;
  call (GlBindBuffer GL_ARRAY_BUFFER cb) ;;
  call (GlBufferData GL_ARRAY_BUFFER colors) ;;
  call GlColorPointer ;;
  call (GlEnable GL_DEPTH_TEST) ;;
  call (GlEnable GL_MULTISAMPLE) ;;
  call (GlEnableClientState GL_VERTEX_ARRAY) ;;
  call (GlEnableClientState GL_COLOR_ARRAY) ;;
  call GlClearColor.

Definition initialize (env : XEnv) : Prog Z :=
  call XOpenDisplay ;; store (set_display (env_display env)) ;;
  dpy <- field display ;;
  if dpy =? 0 then fail "Failed to open X display" else
  call (XineramaQueryScreens dpy) ;;
  store (set_screen_info (env_screens env)) ;;
  si <- field screen_info ;;
  match si with
  | None => fail "Failed to query multi-monitor information"
  | Some screens =>
    let number_of_screens := Z.of_nat (List.length screens) in
    store (set_num_screens number_of_screens) ;;
    let combined_width := fst (combined_size screens) in
    let combined_height := snd (combined_size screens) in
    let root := env_root env in
    call (GlXChooseVisual dpy) ;;
    store (set_visual_info (env_visual env)) ;;
    vi <- field visual_info ;;
    match vi with
    | None => fail "No appropriate visual found"
    | Some v =>
      call (XCreateColormap dpy root (visual v)) ;;
      store (set_color_map (env_colormap env)) ;;
      cmap <- field color_map ;;
      if cmap =? 0 then fail "Failed to create colormap" else
      call (XCreateWindow dpy root 0 0 (CInt.to_uint combined_width)
              (CInt.to_uint combined_height) 0 (depth v) (visual v) cmap) ;;
      store (set_window (env_window env)) ;;
      win <- field window ;;
      if win =? 0 then fail "Failed to create window" else
      call (XStoreName dpy win APP_TITLE) ;;
      call (GlXCreateContext dpy v) ;;
      store (set_glx_context (env_glx_context env)) ;;
      ctx <- field glx_context ;;
      if ctx =? 0 then fail "Failed to create GLX context" else
      call (XInternAtom dpy NET_WM_WINDOW_TYPE) ;;
      call (XInternAtom dpy NET_WM_WINDOW_TYPE_DESKTOP) ;;
      call (XChangeProperty dpy win (env_atom env NET_WM_WINDOW_TYPE)
              (env_atom env NET_WM_WINDOW_TYPE_DESKTOP)) ;;
      call (XMapWindow dpy win) ;;
      call (GlXMakeCurrent dpy win ctx) ;;
      call GlewInit ;;
      if negb (env_glew_ok env) then fail "Failed to initialize GLEW" else
      setup_buffers env ;;
      ret 0
    end
  end.

(* ================================================================= *)
(** ** The render loop *)

Definition TARGET_FPS : Z := 60.
Definition TARGET_FRAME_DURATION : Z := Z.quot 1000000 TARGET_FPS.

(** [frame_time_elapsed]: a [long] expression stored in an [int]. *)
Definition frame_time_elapsed (start_time end_time : timespec) : Z :=
  CInt.to_int
    (CInt.to_long
       (CInt.to_long (CInt.to_long (tv_sec end_time - tv_sec start_time) * 1000000)
        + Z.quot (CInt.to_long (tv_nsec end_time - tv_nsec start_time)) 1000)).

(** [time_to_sleep] and the conditional [usleep]. *)
Definition pace (elapsed : Z) : Prog unit :=
  let time_to_sleep := CInt.to_int (TARGET_FRAME_DURATION - elapsed) in
  if time_to_sleep >? 0 then call (Usleep (CInt.to_uint time_to_sleep)) else ret tt.

(** A statement that reads [app_data->screen_info[i]].  Through a null
    pointer or past the end of the array the read is undefined in C: the
    trace records it as [OutOfBounds]. *)
Definition with_screen (i : nat) (k : XineramaScreenInfo -> Prog unit) : Prog unit :=
  si <- field screen_info ;;
  match si with
  | Some screens =>
      match nth_error screens i with
      | Some s => k s
      | None => call OutOfBounds
      end
  | None => call OutOfBounds
  end.

Definition d_50 : spec_float := Eval cbv in F64.lit 50 0.
Definition d_0_1 : spec_float :=
  Eval cbv in SFdiv F64.prec F64.emax (F64.of_Z 1) (F64.of_Z 10).
Definition d_10_0 : spec_float := Eval cbv in F64.lit 10 0.
Definition f_1_0 : spec_float := Eval cbv in F32.lit 1 0.

(** [(GLfloat)width / (GLfloat)height], widened for [gluPerspective]. *)
Definition aspect (s : XineramaScreenInfo) : spec_float :=
  F64.of_float (F32.div (F32.of_Z (width s)) (F32.of_Z (height s))).

(** The statements of one turn of the loop over the screens. *)
Definition render_screen (i : nat) : list (Prog unit) :=
  [ with_screen i (fun s =>
      call (GlViewport (x_org s) (y_org s) (width s) (height s)));
    call (GlMatrixMode GL_PROJECTION);
    call GlLoadIdentity;
    with_screen i (fun s => call (GluPerspective d_50 (aspect s) d_0_1 d_10_0));
    call (GlMatrixMode GL_MODELVIEW);
    call GlLoadIdentity;
    call (GluLookAt (0, 0, 5) (0, 0, 0) (0, 1, 0));
    (fun m => call (GlRotatef (rotation_angle_x m) f_1_0 f_0_0 f_0_0) m);
    (fun m => call (GlRotatef (rotation_angle_y m) f_0_0 f_1_0 f_0_0) m);
    call (GlDrawElements 24) ].

(** The memory once both angles are advanced. *)
Definition angles_advanced (m : Machine) : Machine :=
  with_rotation (update_rotation_angles (rotation_angle_x m, rotation_angle_y m)) m.

(** [update_rotation_angles(&rotation_angle_x, &rotation_angle_y);] *)
Definition advance_rotation : Prog unit :=
  fun m => (tt, angles_advanced m, []).

(** The statements of the body of [while (!terminate)], for a screen count
    [n]: the [for] loop is unrolled into its [n] turns. *)
Definition loop_body (inp : FrameInput) (n : Z) : list (Prog unit) :=
  [ call ClockGettime;
    call GlClear;
    advance_rotation ]
  ++ flat_map render_screen (seq 0 (Z.to_nat n))
  ++ [ (d <- field display ;; w <- field window ;; call (GlXSwapBuffers d w));
       call ClockGettime;
       pace (frame_time_elapsed (start_time inp) (end_time inp));
       (d <- field display ;; call (XFlush d)) ].

(** One frame: the body run to its end. *)
Definition frame (inp : FrameInput) : Prog unit :=
  n <- field num_screens ;; sequence (loop_body inp n).

(** [main_loop], frame [k] onwards, for at most [fuel] tests of the flag.
    The signals of a frame are handled when its body is done: the body never
    reads [terminate] (see [Interleaved] for delivery between statements). *)
Fixpoint main_loop (fuel : nat) (inputs : nat -> FrameInput) (k : nat)
  (m : Machine) : option (Machine * list event) :=
  match fuel with
  | O => None
  | S fuel' =>
      let t := terminate m in
      if t =? 0 then
        let r := (frame (inputs k) ;; deliver (signals (inputs k))) m in
        match main_loop fuel' inputs (S k) (final r) with
        | Some (m', tr) => Some (m', ReadTerminate t :: events r ++ tr)
        | None => None
        end
      else Some (m, [ReadTerminate t])
  end.

(* ================================================================= *)
(** ** [main] *)

(** Everything [main] gets from outside. *)
Record World : Type := {
  x_env : XEnv;
  init_signals : list Z;
  frame_inputs : nat -> FrameInput
}.

(** The trace of [main] and the status it passes to [exit]; [None] when the
    loop is still running after [fuel] tests of the flag. *)
Definition main (fuel : nat) (w : World) : option (list event * Z) :=
  let r0 := (call (Signal SIGINT) ;; call (Signal SIGTERM) ;;
             r <- initialize (x_env w) ;; deliver (init_signals w) ;; ret r)
              machine_start in
  if negb (result r0 =? 0) then
    let r1 := (call (Fprintf ("Initialization failed" ++ LF)%string) ;; cleanup ;;
               call (Exit EXIT_FAILURE)) (final r0) in
    Some (events r0 ++ events r1, EXIT_FAILURE)
  else
    match main_loop fuel (frame_inputs w) 0 (final r0) with
    | None => None
    | Some (m, tr) =>
        let r1 := (cleanup ;; call (Exit EXIT_SUCCESS)) m in
        Some (events r0 ++ tr ++ events r1, EXIT_SUCCESS)
    end.

(* ================================================================= *)
(** ** Properties of statements *)

(** A statement that neither reads nor writes [terminate]: setting the flag
    before or after it comes to the same. *)
Definition flag_blind (p : Prog unit) : Prop :=
  forall v m,
    p (with_terminate v m) = (tt, with_terminate v (final (p m)), events (p m)).

(** A statement that leaves the context alone. *)
Definition keeps_app_data (p : Prog unit) : Prop :=
  forall m, app_data (final (p m)) = app_data m.

Definition is_flag_read (e : event) : bool :=
  match e with ReadTerminate _ => true | _ => false end.

Definition is_monitor_query (e : event) : bool :=
  match e with XineramaQueryScreens _ => true | _ => false end.

(** The calls a frame can make. *)
Definition is_frame_call (e : event) : bool :=
  match e with
  | ClockGettime | GlClear | GlViewport _ _ _ _ | GlMatrixMode _
  | GlLoadIdentity | GluPerspective _ _ _ _ | GluLookAt _ _ _
  | GlRotatef _ _ _ _ | GlDrawElements _ | GlXSwapBuffers _ _ | Usleep _
  | XFlush _ | OutOfBounds => true
  | _ => false
  end.

(* ================================================================= *)
(** ** The loop statement by statement, with signals in between *)

Module Interleaved.

(** Where control is: at the test of [while (!terminate)], inside the body
    with the statements still to run, or past the loop. *)
Inductive control : Type :=
| AtTest
| InBody (rest : list (Prog unit))
| Returned.

Record state : Type := {
  mach : Machine;
  ctl : control;
  issued : list event
}.

(** One step of [main_loop]. *)
Inductive prog_step : state -> state -> Prop :=
| step_leave (m : Machine) (t : list event) :
    terminate m <> 0 ->
    prog_step {| mach := m; ctl := AtTest; issued := t |}
              {| mach := m; ctl := Returned;
                 issued := t ++ [ReadTerminate (terminate m)] |}
| step_enter (m : Machine) (t : list event) (inp : FrameInput) :
    terminate m = 0 ->
    prog_step {| mach := m; ctl := AtTest; issued := t |}
              {| mach := m;
                 ctl := InBody (loop_body inp (num_screens (app_data m)));
                 issued := t ++ [ReadTerminate (terminate m)] |}
| step_stmt (m : Machine) (s : Prog unit) (rest : list (Prog unit))
    (t : list event) :
    prog_step {| mach := m; ctl := InBody (s :: rest); issued := t |}
              {| mach := final (s m); ctl := InBody rest;
                 issued := t ++ events (s m) |}
| step_again (m : Machine) (t : list event) :
    prog_step {| mach := m; ctl := InBody []; issued := t |}
              {| mach := m; ctl := AtTest; issued := t |}.

(** The delivery of one of the two signals [main] installs the handler
    for: the handler runs, control stays where it is. *)
Inductive signal_step : state -> state -> Prop :=
| step_signal (signum : Z) (st : state) :
    signum = SIGINT \/ signum = SIGTERM ->
    signal_step st
      {| mach := final (signal_handler signum (mach st)); ctl := ctl st;
         issued := issued st |}.

(** [run n s s']: an execution from [s] to [s'] with [n] steps of the
    program and any number of signals. *)
Inductive run : nat -> state -> state -> Prop :=
| run_done (s : state) : run 0 s s
| run_prog (n : nat) (s1 s2 s3 : state) :
    prog_step s1 s2 -> run n s2 s3 -> run (S n) s1 s3
| run_signal (n : nat) (s1 s2 s3 : state) :
    signal_step s1 s2 -> run n s2 s3 -> run n s1 s3.

(** [main_loop] is entered at its test. *)
Definition entry (m : Machine) : state :=
  {| mach := m; ctl := AtTest; issued := [] |}.

(** What is left of the loop once the flag is set: the rest of the body in
    progress, then the test that leaves. *)
Definition remaining (st : state) : list event :=
  match ctl st with
  | AtTest => [ReadTerminate (terminate (mach st))]
  | InBody rest =>
      events (sequence rest (mach st)) ++ [ReadTerminate (terminate (mach st))]
  | Returned => []
  end.

(** The number of program steps left, under the same condition. *)
Definition steps_left (st : state) : nat :=
  match ctl st with
  | AtTest => 1
  | InBody rest => List.length rest + 2
  | Returned => 0
  end.

(** A trace of whole frames over the context [a], each one after a read
    of the flag that found it clear. *)
Inductive complete_frames (a : AppData) : list event -> Prop :=
| frames_none : complete_frames a []
| frames_more (t : list event) (inp : FrameInput) (m : Machine) :
    complete_frames a t ->
    app_data m = a ->
    complete_frames a (t ++ ReadTerminate 0 :: events (frame inp m)).

(** The shape of a state of the loop over the context [a]: the context is
    [a]; at the test the trace is whole frames; inside the body it is
    whole frames, one read of the clear flag, and the part [done] of a
    frame that the statements left will complete; past the loop it is
    whole frames and the one read that found the flag set. *)
Definition well_formed (a : AppData) (st : state) : Prop :=
  app_data (mach st) = a
  /\ match ctl st with
     | AtTest => complete_frames a (issued st)
     | InBody rest =>
         Forall flag_blind rest /\ Forall keeps_app_data rest
         /\ exists (t done : list event) (inp : FrameInput) (m : Machine),
             complete_frames a t /\ app_data m = a
             /\ issued st = t ++ ReadTerminate 0 :: done
             /\ done ++ events (sequence rest (mach st)) = events (frame inp m)
     | Returned =>
         exists (t : list event) (v : Z),
           complete_frames a t /\ v <> 0
           /\ issued st = t ++ [ReadTerminate v]
     end.

End Interleaved.

(* ================================================================= *)
(** ** Vocabulary of the statements *)

(** The angle that is [k] half degrees. *)
Definition half_degrees (k : Z) : spec_float := F32.lit k (-1).

(** The remainder of a real division, on rationals: [x - y * floor (x / y)]. *)
Definition Qmodulo (x y : Q) : Q := (x - y * inject_Z (Qfloor (x / y)))%Q.

(** The calls of one draw pass, for a monitor [s] and the two angles. *)
Definition screen_pass (ax ay : spec_float) (s : XineramaScreenInfo) : list event :=
  [ GlViewport (x_org s) (y_org s) (width s) (height s);
    GlMatrixMode GL_PROJECTION;
    GlLoadIdentity;
    GluPerspective d_50 (aspect s) d_0_1 d_10_0;
    GlMatrixMode GL_MODELVIEW;
    GlLoadIdentity;
    GluLookAt (0, 0, 5) (0, 0, 0) (0, 1, 0);
    GlRotatef ax f_1_0 f_0_0 f_0_0;
    GlRotatef ay f_0_0 f_1_0 f_0_0;
    GlDrawElements 24 ].

Definition is_draw (e : event) : bool :=
  match e with GlDrawElements _ => true | _ => false end.

(** The rectangles of the [glViewport] calls of a trace, in order. *)
Definition viewports (t : list event) : list (Z * Z * Z * Z) :=
  flat_map (fun e => match e with
                     | GlViewport x y w h => [(x, y, w, h)]
                     | _ => []
                     end) t.

(** The aspect ratios of the [gluPerspective] calls of a trace, in order. *)
Definition aspects (t : list event) : list spec_float :=
  flat_map (fun e => match e with
                     | GluPerspective _ a _ _ => [a]
                     | _ => []
                     end) t.

Definition rectangle (s : XineramaScreenInfo) : Z * Z * Z * Z :=
  (x_org s, y_org s, width s, height s).

(** The context holds the monitor list [screens] and its length. *)
Definition screens_loaded (a : AppData) (screens : list XineramaScreenInfo) : Prop :=
  screen_info a = Some screens /\ num_screens a = Z.of_nat (List.length screens).

(** The releases [cleanup] owes a context, in its order: one for each handle
    that is set. *)
Definition releases (a : AppData) : list event :=
  (if nonzero (vertex_buffer a) then [GlDeleteBuffers (vertex_buffer a)] else [])
  ++ (if nonzero (index_buffer a) then [GlDeleteBuffers (index_buffer a)] else [])
  ++ (if nonzero (color_buffer a) then [GlDeleteBuffers (color_buffer a)] else [])
  ++ (if nonzero (color_map a) then [XFreeColormap (display a) (color_map a)] else [])
  ++ (if nonzero (window a) then [XDestroyWindow (display a) (window a)] else [])
  ++ (if nonzero (glx_context a)
      then [GlXDestroyContext (display a) (glx_context a)] else [])
  ++ match visual_info a with Some vi => [XFreeVisualInfo vi] | None => [] end
  ++ match screen_info a with Some l => [XFreeScreenInfo l] | None => [] end
  ++ (if nonzero (display a) then [XCloseDisplay (display a)] else []).

(** The acquisition steps of [initialize], in its order. *)
Inductive init_step : Type :=
| OpenDisplay | QueryMonitors | ChooseVisual | CreateColormap | CreateWindow
| CreateContext | LoadExtensions | CreateBuffers.

Definition step_index (s : init_step) : nat :=
  match s with
  | OpenDisplay => 0 | QueryMonitors => 1 | ChooseVisual => 2
  | CreateColormap => 3 | CreateWindow => 4 | CreateContext => 5
  | LoadExtensions => 6 | CreateBuffers => 7
  end.

(** Whether the world makes a step fail, were it reached. *)
Definition step_fails (env : XEnv) (s : init_step) : bool :=
  match s with
  | OpenDisplay => env_display env =? 0
  | QueryMonitors => negb (is_some (env_screens env))
  | ChooseVisual => negb (is_some (env_visual env))
  | CreateColormap => env_colormap env =? 0
  | CreateWindow => env_window env =? 0
  | CreateContext => env_glx_context env =? 0
  | LoadExtensions => negb (env_glew_ok env)
  | CreateBuffers => false
  end.

Definition first_failure (env : XEnv) : option init_step :=
  find (step_fails env)
    [OpenDisplay; QueryMonitors; ChooseVisual; CreateColormap; CreateWindow;
     CreateContext; LoadExtensions; CreateBuffers].

(** The message [initialize] prints for a failed step. *)
Definition diagnostic (s : init_step) : string :=
  match s with
  | OpenDisplay => "Failed to open X display"
  | QueryMonitors => "Failed to query multi-monitor information"
  | ChooseVisual => "No appropriate visual found"
  | CreateColormap => "Failed to create colormap"
  | CreateWindow => "Failed to create window"
  | CreateContext => "Failed to create GLX context"
  | LoadExtensions => "Failed to initialize GLEW"
  | CreateBuffers => ""
  end.

(** The step a call acquires for, if it is an acquisition. *)
Definition acquisition (e : event) : option init_step :=
  match e with
  | XOpenDisplay => Some OpenDisplay
  | XineramaQueryScreens _ => Some QueryMonitors
  | GlXChooseVisual _ => Some ChooseVisual
  | XCreateColormap _ _ _ => Some CreateColormap
  | XCreateWindow _ _ _ _ _ _ _ _ _ _ => Some CreateWindow
  | GlXCreateContext _ _ => Some CreateContext
  | GlewInit => Some LoadExtensions
  | GlGenBuffers => Some CreateBuffers
  | _ => None
  end.

(** A program that leaves the memory as it found it. *)
Definition preserves_memory {A : Type} (p : Prog A) : Prop :=
  forall m, final (p m) = m.

(** The machine after [n] frames from frame [k] on, each followed by the
    handlers of its signals. *)
Fixpoint after_frames (n : nat) (inputs : nat -> FrameInput) (k : nat)
  (m : Machine) : Machine :=
  match n with
  | O => m
  | S n' =>
      after_frames n' inputs (S k)
        (final ((frame (inputs k) ;; deliver (signals (inputs k))) m))
  end.

(** What the table of the 720 angles must show for the angle of [k] half
    degrees: one update leads to the angle of [k + 1] half degrees, wrapped
    at 720, and the number denoted is [k / 2]. *)
Definition half_degree_ok (k : Z) : bool :=
  Flt.eqb (advance_angle (half_degrees k)) (half_degrees ((k + 1) mod 720))
  && Flt.is_finite (half_degrees k)
  && Qeq_bool (Flt.value (half_degrees k)) (k # 2).

(** The range of a C [short], the type of a monitor's coordinates. *)
Definition is_short (z : Z) : Prop := -32768 <= z <= 32767.

Definition sum_widths (l : list XineramaScreenInfo) : Z :=
  fold_right (fun s acc => width s + acc) 0 l.

Definition max_height (l : list XineramaScreenInfo) : Z :=
  fold_right (fun s acc => Z.max (height s) acc) 0 l.

Definition is_sleep (e : event) : bool :=
  match e with Usleep _ => true | _ => false end.

(** A reading of the clock: seconds that leave [long] arithmetic exact and
    nanoseconds below one second. *)
Definition valid_timespec (t : timespec) : Prop :=
  0 <= tv_sec t <= 1000000000000 /\ 0 <= tv_nsec t < 1000000000.

(** A trace all of whose acquisitions are for steps before [s]. *)
Definition only_before (s : init_step) (t : list event) : Prop :=
  Forall (fun e => forall s', acquisition e = Some s' ->
                              (step_index s' < step_index s)%nat) t.

(* ================================================================= *)
(** ** Sample worlds *)

Definition monitor (x y w h : Z) : XineramaScreenInfo :=
  {| screen_number := 0; x_org := x; y_org := y; width := w; height := h |}.

(** A server on which every call of [initialize] succeeds, with the
    monitors [l]. *)
Definition env_with (l : list XineramaScreenInfo) : XEnv :=
  {| env_display := 4096; env_screens := Some l; env_root := 1;
     env_visual := Some {| visual := 33; depth := 24 |}; env_colormap := 7;
     env_window := 8; env_glx_context := 9;
     env_atom := fun s => Z.of_nat (String.length s);
     env_glew_ok := true; env_vertex_buffer := 1; env_index_buffer := 2;
     env_color_buffer := 3 |}.

(** A server without Xinerama: the display opens, the monitor query fails. *)
Definition env_no_monitors : XEnv :=
  {| env_display := 4096; env_screens := None; env_root := 1;
     env_visual := Some {| visual := 33; depth := 24 |}; env_colormap := 7;
     env_window := 8; env_glx_context := 9;
     env_atom := fun s => Z.of_nat (String.length s);
     env_glew_ok := true; env_vertex_buffer := 1; env_index_buffer := 2;
     env_color_buffer := 3 |}.

(** Two monitors side by side, the second one taller. *)
Definition two_monitors : list XineramaScreenInfo :=
  [monitor 0 0 1920 1080; monitor 1920 0 1920 1200].

(** The two monitors of the specification's scenario. *)
Definition twin_monitors : list XineramaScreenInfo :=
  [monitor 0 0 1920 1080; monitor 1920 0 1920 1080].

(** A frame of 4 microseconds across a second boundary, without signals. *)
Definition quick_frame : FrameInput :=
  {| start_time := {| tv_sec := 5; tv_nsec := 999999000 |};
     end_time := {| tv_sec := 6; tv_nsec := 3000 |};
     signals := [] |}.

(** A frame of 20 milliseconds during which SIGTERM arrives. *)
Definition last_frame : FrameInput :=
  {| start_time := {| tv_sec := 6; tv_nsec := 0 |};
     end_time := {| tv_sec := 6; tv_nsec := 20000000 |};
     signals := [SIGTERM] |}.

(** SIGTERM during the second frame. *)
Definition world_two_frames : World :=
  {| x_env := env_with two_monitors;
     init_signals := [];
     frame_inputs := fun k => if (k =? 1)%nat then last_frame else quick_frame |}.

(** The memory [main_loop] starts from on the server with two monitors. *)
Definition machine_two_monitors : Machine :=
  final (initialize (env_with two_monitors) machine_start).

(** The loop on that memory, inside its first frame when SIGTERM arrives. *)
Definition interrupted_state : Interleaved.state :=
  {| Interleaved.mach := with_terminate 1 machine_two_monitors;
     Interleaved.ctl := Interleaved.InBody (loop_body quick_frame 2);
     Interleaved.issued := [ReadTerminate 0] |}.

(* ================================================================= *)
(** ** Further vocabulary *)

Definition sum_heights (l : list XineramaScreenInfo) : Z :=
  fold_right (fun s acc => height s + acc) 0 l.

(** A monitor whose width and height are those of a real screen: not
    negative, within [short]. *)
Definition sized_monitor (s : XineramaScreenInfo) : Prop :=
  0 <= width s <= 32767 /\ 0 <= height s <= 32767.

(** Whether [initialize] gets as far as making the call of step [s]. *)
Definition reached (env : XEnv) (s : init_step) : bool :=
  match first_failure env with
  | Some f => (step_index s <=? step_index f)%nat
  | None => true
  end.

(** The two signals the handler acts on. *)
Definition terminating (signum : Z) : bool :=
  (signum =? SIGINT) || (signum =? SIGTERM).

(** The time between two readings of the clock, in nanoseconds. *)
Definition ns_between (t0 t1 : timespec) : Z :=
  (tv_sec t1 - tv_sec t0) * 1000000000 + (tv_nsec t1 - tv_nsec t0).

(** The value of the expression of [frame_time_elapsed] before it is cut
    to [long] and [int]. *)
Definition us_between (t0 t1 : timespec) : Z :=
  (tv_sec t1 - tv_sec t0) * 1000000 + Z.quot (tv_nsec t1 - tv_nsec t0) 1000.

(** The place of a release in the order of [cleanup]. *)
Definition release_rank (e : event) : nat :=
  match e with
  | GlDeleteBuffers _ => 0
  | XFreeColormap _ _ => 1
  | XDestroyWindow _ _ => 2
  | GlXDestroyContext _ _ => 3
  | XFreeVisualInfo _ => 4
  | XFreeScreenInfo _ => 5
  | _ => 6
  end.

Definition is_swap (e : event) : bool :=
  match e with GlXSwapBuffers _ _ => true | _ => false end.

(** A frame of 50 minutes: the process was stopped while it ran. *)
Definition stalled_frame : FrameInput :=
  {| start_time := {| tv_sec := 100; tv_nsec := 0 |};
     end_time := {| tv_sec := 3100; tv_nsec := 0 |};
     signals := [] |}.

(** SIGINT while [initialize] runs. *)
Definition world_early_signal : World :=
  {| x_env := env_with two_monitors;
     init_signals := [SIGINT];
     frame_inputs := fun _ => quick_frame |}.

(** No signal, ever. *)
Definition world_no_signal : World :=
  {| x_env := env_with two_monitors;
     init_signals := [];
     frame_inputs := fun _ => quick_frame |}.

(** The sleep that follows a frame whose elapsed microseconds are [e]. *)
Definition paced_sleep (e : Z) : list event :=
  if CInt.to_int (TARGET_FRAME_DURATION - e) >? 0
  then [Usleep (CInt.to_uint (CInt.to_int (TARGET_FRAME_DURATION - e)))]
  else [].

(** The calls of one whole frame over the context [a] and the monitors
    [screens]: the first clock reading and the clear, one draw pass per
    monitor at the angles [ax] and [ay], the swap, the second clock reading,
    the sleep [sleep] and the flush. *)
Definition whole_frame (a : AppData) (screens : list XineramaScreenInfo)
  (ax ay : spec_float) (sleep : list event) : list event :=
  [ClockGettime; GlClear]
  ++ flat_map (screen_pass ax ay) screens
  ++ [GlXSwapBuffers (display a) (window a); ClockGettime]
  ++ sleep
  ++ [XFlush (display a)].

(** The calls of frame [i] (from 0) of the loop entered with the memory
    [m]: the angles have been advanced [i + 1] times. *)
Definition calls_of_frame (inputs : nat -> FrameInput) (m : Machine)
  (screens : list XineramaScreenInfo) (i : nat) : list event :=
  let angles := Nat.iter (S i) update_rotation_angles
                  (rotation_angle_x m, rotation_angle_y m) in
  whole_frame (app_data m) screens (fst angles) (snd angles)
    (paced_sleep (frame_time_elapsed (start_time (inputs i))
                    (end_time (inputs i)))).

(* ################################################################# *)
(** * Properties *)

#[global] Arguments CInt.to_int : simpl never.
#[global] Arguments CInt.to_long : simpl never.
#[global] Arguments CInt.to_uint : simpl never.
#[global] Arguments frame_time_elapsed : simpl never.
#[global] Arguments advance_angle : simpl never.
#[global] Arguments update_rotation_angles : simpl never.
#[global] Arguments aspect : simpl never.

(* ================================================================= *)
(** ** Machine integers and floating-point equality *)

Lemma to_int_id (z : Z) : CInt.INT_MIN <= z <= CInt.INT_MAX -> CInt.to_int z = z.
Proof.
  unfold CInt.to_int, CInt.wrap_signed, CInt.INT_MIN, CInt.INT_MAX. intros H.
  change (2 ^ (32 - 1)) with 2147483648. change (2 ^ 32) with 4294967296.
  rewrite Z.mod_small; lia.
Qed.

Lemma to_int_range (z : Z) : CInt.INT_MIN <= CInt.to_int z <= CInt.INT_MAX.
Proof.
  unfold CInt.to_int, CInt.wrap_signed, CInt.INT_MIN, CInt.INT_MAX.
  change (2 ^ (32 - 1)) with 2147483648. change (2 ^ 32) with 4294967296.
  pose proof (Z.mod_pos_bound (z + 2147483648) 4294967296). lia.
Qed.

Lemma to_long_id (z : Z) :
  -9223372036854775808 <= z <= 9223372036854775807 -> CInt.to_long z = z.
Proof.
  unfold CInt.to_long, CInt.wrap_signed. intros H.
  change (2 ^ (64 - 1)) with 9223372036854775808.
  change (2 ^ 64) with 18446744073709551616.
  rewrite Z.mod_small; lia.
Qed.

Lemma to_uint_id (z : Z) : 0 <= z <= 4294967295 -> CInt.to_uint z = z.
Proof.
  unfold CInt.to_uint. intros H. change (2 ^ 32) with 4294967296.
  apply Z.mod_small. lia.
Qed.

Lemma flt_eqb_eq (x y : spec_float) : Flt.eqb x y = true -> x = y.
Proof.
  destruct x, y; simpl; try discriminate; try reflexivity.
  - intros H. apply Bool.eqb_prop in H. now subst.
  - intros H. apply Bool.eqb_prop in H. now subst.
  - intros H. apply andb_prop in H as [H He]. apply andb_prop in H as [Hs Hm].
    apply Bool.eqb_prop in Hs. apply Pos.eqb_eq in Hm. apply Z.eqb_eq in He.
    now subst.
Qed.

(* ================================================================= *)
(** ** Rotation angles *)

Lemma half_degree_table :
  forallb half_degree_ok (map Z.of_nat (seq 0 720)) = true.
Proof. vm_compute. reflexivity. Qed.

Lemma half_degree_ok_below_720 (k : Z) :
  0 <= k < 720 -> half_degree_ok k = true.
Proof.
  intros Hk. pose proof half_degree_table as T.
  rewrite forallb_forall in T. apply T.
  apply in_map_iff. exists (Z.to_nat k). split; [lia |].
  apply in_seq. lia.
Qed.

Lemma advance_half_degrees (k : Z) :
  0 <= k < 720 ->
  advance_angle (half_degrees k) = half_degrees ((k + 1) mod 720).
Proof.
  intros Hk. pose proof (half_degree_ok_below_720 k Hk) as H.
  unfold half_degree_ok in H.
  apply andb_prop in H as [H _]. apply andb_prop in H as [H _].
  now apply flt_eqb_eq.
Qed.

Lemma value_half_degrees (k : Z) :
  0 <= k < 720 ->
  Flt.is_finite (half_degrees k) = true /\ (Flt.value (half_degrees k) == k # 2)%Q.
Proof.
  intros Hk. pose proof (half_degree_ok_below_720 k Hk) as H.
  unfold half_degree_ok in H.
  apply andb_prop in H as [H Hv]. apply andb_prop in H as [_ Hf].
  split; [exact Hf | now apply Qeq_bool_iff].
Qed.

Lemma angles_after (n : nat) :
  Nat.iter n update_rotation_angles (f_0_0, f_0_0)
  = (half_degrees (Z.of_nat n mod 720), half_degrees (Z.of_nat n mod 720)).
Proof.
  induction n as [| n IH].
  - reflexivity.
  - rewrite Nat.iter_succ, IH. unfold update_rotation_angles.
    assert (Hr : 0 <= Z.of_nat n mod 720 < 720) by (apply Z.mod_pos_bound; lia).
    rewrite (advance_half_degrees _ Hr).
    replace (Z.of_nat (S n)) with (Z.of_nat n + 1) by lia.
    now rewrite Zplus_mod_idemp_l.
Qed.

Lemma half_turn_modulo (n : Z) :
  (Qmodulo ((1 # 2) * inject_Z n) 360 == (n mod 720) # 2)%Q.
Proof.
  unfold Qmodulo.
  assert (E : ((1 # 2) * inject_Z n / 360 == n # 720)%Q).
  { unfold Qeq, Qdiv, Qmult, Qinv, inject_Z. cbn [Qnum Qden].
    change (Qnum (360 # 1)) with 360. cbv iota beta. cbn [Qnum Qden Pos.mul].
    lia. }
  rewrite E. unfold Qfloor.
  pose proof (Z.div_mod n 720 ltac:(lia)) as D.
  change (Z.pos 720) with 720.
  generalize dependent (n / 720). generalize (n mod 720). intros r q D.
  unfold Qeq, Qminus, Qplus, Qopp, Qmult, inject_Z. cbn [Qnum Qden Pos.mul].
  lia.
Qed.

(** C2.  From both angles at 0, [n] calls of [update_rotation_angles] leave
    each angle a finite number equal to [(0.5 * n) mod 360], inside
    [[0, 360)]. *)
Theorem rotation_after_n_updates (n : nat) :
  let angles := Nat.iter n update_rotation_angles (f_0_0, f_0_0) in
  let turn := Qmodulo ((1 # 2) * inject_Z (Z.of_nat n)) 360 in
  (Flt.is_finite (fst angles) = true
   /\ Flt.value (fst angles) == turn
   /\ 0 <= Flt.value (fst angles) < 360)%Q
  /\ (Flt.is_finite (snd angles) = true
      /\ Flt.value (snd angles) == turn
      /\ 0 <= Flt.value (snd angles) < 360)%Q.
Proof.
  intros angles turn. subst angles turn. rewrite angles_after. cbn [fst snd].
  assert (Hr : 0 <= Z.of_nat n mod 720 < 720) by (apply Z.mod_pos_bound; lia).
  destruct (value_half_degrees _ Hr) as [Hf Hv].
  assert (Hb : (0 <= Z.of_nat n mod 720 # 2 < 360)%Q).
  { unfold Qle, Qlt. simpl. lia. }
  assert (G : (Flt.is_finite (half_degrees (Z.of_nat n mod 720)) = true
               /\ Flt.value (half_degrees (Z.of_nat n mod 720))
                  == Qmodulo ((1 # 2) * inject_Z (Z.of_nat n)) 360
               /\ 0 <= Flt.value (half_degrees (Z.of_nat n mod 720)) < 360)%Q).
  { split; [exact Hf |]. split.
    - rewrite Hv. symmetry. apply half_turn_modulo.
    - rewrite Hv. exact Hb. }
  split; exact G.
Qed.

(* ================================================================= *)
(** ** Programs *)

Lemma bind_result {A B : Type} (p : Prog A) (k : A -> Prog B) (m : Machine) :
  result (bind p k m) = result (k (result (p m)) (final (p m))).
Proof. reflexivity. Qed.

Lemma bind_final {A B : Type} (p : Prog A) (k : A -> Prog B) (m : Machine) :
  final (bind p k m) = final (k (result (p m)) (final (p m))).
Proof. reflexivity. Qed.

Lemma bind_events {A B : Type} (p : Prog A) (k : A -> Prog B) (m : Machine) :
  events (bind p k m) = events (p m) ++ events (k (result (p m)) (final (p m))).
Proof. reflexivity. Qed.

Lemma prog_eta {A : Type} (r : A * Machine * list event) :
  r = (result r, final r, events r).
Proof. now destruct r as [[a m] t]. Qed.

Lemma sequence_app (ps qs : list (Prog unit)) (m : Machine) :
  sequence (ps ++ qs) m = (sequence ps ;; sequence qs) m.
Proof.
  revert m. induction ps as [| p ps IH]; intros m.
  - cbn. unfold bind. cbn. apply prog_eta.
  - cbn [app sequence]. unfold bind. rewrite IH.
    unfold bind, result, final, events. cbn [fst snd]. now rewrite app_assoc.
Qed.

Lemma preserves_ret {A : Type} (a : A) : preserves_memory (ret a).
Proof. intros m. reflexivity. Qed.

Lemma preserves_call (e : event) : preserves_memory (call e).
Proof. intros m. reflexivity. Qed.

Lemma preserves_field {A : Type} (f : AppData -> A) : preserves_memory (field f).
Proof. intros m. reflexivity. Qed.

Lemma preserves_bind {A B : Type} (p : Prog A) (k : A -> Prog B) :
  preserves_memory p -> (forall a, preserves_memory (k a)) ->
  preserves_memory (bind p k).
Proof. intros Hp Hk m. rewrite bind_final, Hp. apply Hk. Qed.

Lemma preserves_when (b : bool) (p : Prog unit) :
  preserves_memory p -> preserves_memory (when b p).
Proof. intros Hp. destruct b; [exact Hp | apply preserves_ret]. Qed.

Ltac preserve :=
  repeat (intros;
          first [ apply preserves_bind | apply preserves_ret
                | apply preserves_call | apply preserves_field
                | apply preserves_when
                | match goal with
                  | |- preserves_memory (match ?x with _ => _ end) => destruct x
                  end ]).

(* ================================================================= *)
(** ** [cleanup] *)

Lemma cleanup_preserves : preserves_memory cleanup.
Proof. unfold cleanup. preserve. Qed.

Lemma then_events {A B : Type} (p : Prog A) (q : Prog B) (m : Machine) :
  preserves_memory p -> events ((p ;; q) m) = events (p m) ++ events (q m).
Proof. intros Hp. rewrite bind_events, Hp. reflexivity. Qed.

Lemma when_events (b : bool) (e : event) (m : Machine) :
  events (when b (call e) m) = if b then [e] else [].
Proof. now destruct b. Qed.

Lemma cleanup_events (m : Machine) : events (cleanup m) = releases (app_data m).
Proof.
  unfold cleanup, releases.
  repeat (rewrite then_events by preserve; f_equal);
    repeat (rewrite bind_events; cbn [field events result final fst snd app]);
    try apply when_events.
  - now destruct (visual_info (app_data m)).
  - now destruct (screen_info (app_data m)).
Qed.

(** C10.  [cleanup] leaves the whole memory, and so every member of the
    context, as it was: no handle is reset after its release. *)
Theorem cleanup_leaves_fields (m : Machine) :
  final (cleanup m) = m
  /\ app_data (final (cleanup m)) = app_data m
  /\ display (app_data (final (cleanup m))) = display (app_data m)
  /\ window (app_data (final (cleanup m))) = window (app_data m)
  /\ screen_info (app_data (final (cleanup m))) = screen_info (app_data m)
  /\ visual_info (app_data (final (cleanup m))) = visual_info (app_data m)
  /\ glx_context (app_data (final (cleanup m))) = glx_context (app_data m)
  /\ color_map (app_data (final (cleanup m))) = color_map (app_data m)
  /\ vertex_buffer (app_data (final (cleanup m))) = vertex_buffer (app_data m)
  /\ index_buffer (app_data (final (cleanup m))) = index_buffer (app_data m)
  /\ color_buffer (app_data (final (cleanup m))) = color_buffer (app_data m)
  /\ num_screens (app_data (final (cleanup m))) = num_screens (app_data m).
Proof. rewrite (cleanup_preserves m). repeat split. Qed.

Lemma in_guarded (b : bool) (e e' : event) :
  In e (if b then [e'] else []) <-> e = e' /\ b = true.
Proof.
  destruct b; simpl; split; intros H.
  - destruct H as [H | []]. now subst.
  - left. symmetry. apply H.
  - destruct H.
  - destruct H as [_ H]. discriminate.
Qed.

Lemma nonzero_true (z : Z) : nonzero z = true <-> z <> 0.
Proof. unfold nonzero. rewrite negb_true_iff, Z.eqb_neq. reflexivity. Qed.

Lemma releases_zero : releases app_data_zero = [].
Proof. reflexivity. Qed.

Lemma cleanup_twice (m : Machine) :
  (cleanup ;; cleanup) m = (tt, m, events (cleanup m) ++ events (cleanup m)).
Proof.
  unfold bind. rewrite (cleanup_preserves m).
  destruct (cleanup m) as [[[] m'] t] eqn:E.
  pose proof (cleanup_preserves m) as P. rewrite E in P. cbn in P. subst m'.
  reflexivity.
Qed.

Ltac one_of tac :=
  first [ solve [tac] | left; solve [tac] | right; one_of tac ].

(** C5, as the code has it.  [cleanup] issues a release exactly for each
    handle of the context that is set, and none on the zeroed context.  It
    is not idempotent: the handles stay set, so a second call repeats the
    releases of the first, and two calls come to the same as one only when
    there is nothing to release. *)
Theorem cleanup_releases_what_is_set (m : Machine) :
  let a := app_data m in
  (forall e : event,
      In e (events (cleanup m)) <->
      (e = GlDeleteBuffers (vertex_buffer a) /\ vertex_buffer a <> 0)
      \/ (e = GlDeleteBuffers (index_buffer a) /\ index_buffer a <> 0)
      \/ (e = GlDeleteBuffers (color_buffer a) /\ color_buffer a <> 0)
      \/ (e = XFreeColormap (display a) (color_map a) /\ color_map a <> 0)
      \/ (e = XDestroyWindow (display a) (window a) /\ window a <> 0)
      \/ (e = GlXDestroyContext (display a) (glx_context a) /\ glx_context a <> 0)
      \/ (exists vi, e = XFreeVisualInfo vi /\ visual_info a = Some vi)
      \/ (exists l, e = XFreeScreenInfo l /\ screen_info a = Some l)
      \/ (e = XCloseDisplay (display a) /\ display a <> 0))
  /\ (a = app_data_zero -> events (cleanup m) = [])
  /\ (cleanup ;; cleanup) m = (tt, m, events (cleanup m) ++ events (cleanup m))
  /\ ((cleanup ;; cleanup) m = cleanup m <-> events (cleanup m) = []).
Proof.
  intros a. subst a. split; [| split; [| split]].
  - intros e. rewrite cleanup_events. unfold releases. rewrite !in_app_iff.
    rewrite !in_guarded, !nonzero_true.
    destruct (visual_info (app_data m)) as [vi |];
      destruct (screen_info (app_data m)) as [l |]; cbn [In];
      (split; intros H; decompose [or] H; clear H;
       repeat match goal with
         | H : False |- _ => destruct H
         | H : exists _, _ /\ _ |- _ => destruct H as [? [? ?]]
         | H : None = Some _ |- _ => discriminate H
         | H : Some _ = Some _ |- _ => injection H as H
         end;
       subst; one_of ltac:(first [ eassumption | tauto | eauto ])).
  - intros Hz. rewrite cleanup_events, Hz. reflexivity.
  - apply cleanup_twice.
  - split; intros H.
    + rewrite cleanup_twice in H.
    apply (f_equal events) in H. cbn [events snd] in H.
    destruct (events (cleanup m)) as [| e t]; [reflexivity |].
    apply (f_equal (@List.length event)) in H.
    rewrite length_app in H. cbn in H. lia.
    + rewrite cleanup_twice, H.
    rewrite (prog_eta (cleanup m)), cleanup_preserves, H.
    now destruct (result (cleanup m)).
Qed.

(** C5 fails as stated: on the context left by an initialization that
    stopped at the monitor query, a second [cleanup] closes the display
    once more. *)
Lemma cleanup_twice_differs :
  (cleanup ;; cleanup) (final (initialize env_no_monitors machine_start))
  <> cleanup (final (initialize env_no_monitors machine_start)).
Proof. intros H. apply (f_equal events) in H. vm_compute in H. discriminate. Qed.

(* ================================================================= *)
(** ** [signal_handler] *)

(** C8.  For SIGINT and for SIGTERM alike the handler writes 1 to
    [terminate] and does nothing else: it makes no call and leaves the
    context and the angles alone. *)
Theorem signal_handler_sets_flag (m : Machine) :
  signal_handler SIGINT m = (tt, with_terminate 1 m, [])
  /\ signal_handler SIGTERM m = (tt, with_terminate 1 m, [])
  /\ signal_handler SIGINT m = signal_handler SIGTERM m
  /\ terminate (final (signal_handler SIGINT m)) = 1
  /\ terminate (final (signal_handler SIGTERM m)) = 1
  /\ (forall signum, signum = SIGINT \/ signum = SIGTERM ->
        events (signal_handler signum m) = []
        /\ app_data (final (signal_handler signum m)) = app_data m
        /\ rotation_angle_x (final (signal_handler signum m)) = rotation_angle_x m
        /\ rotation_angle_y (final (signal_handler signum m)) = rotation_angle_y m).
Proof.
  repeat split; try reflexivity;
    match goal with H : _ \/ _ |- _ => destruct H; subst; reflexivity end.
Qed.

Lemma signal_handler_other (signum : Z) (m : Machine) :
  signum <> SIGINT -> signum <> SIGTERM -> signal_handler signum m = (tt, m, []).
Proof.
  intros H1 H2. unfold signal_handler.
  apply Z.eqb_neq in H1, H2. now rewrite H1, H2.
Qed.

(* ================================================================= *)
(** ** The size of the window *)

Lemma combine_width_from (l : list XineramaScreenInfo) (w0 h0 : Z) :
  Forall (fun s => is_short (width s)) l ->
  Z.abs w0 + 32768 * Z.of_nat (List.length l) <= CInt.INT_MAX ->
  fst (fold_left combine_screen l (w0, h0)) = w0 + sum_widths l.
Proof.
  revert w0 h0. induction l as [| s l IH]; intros w0 h0 Hs Hb.
  - cbn. lia.
  - inversion Hs as [| ? ? Hw Hl]; subst. unfold is_short in Hw.
    cbn [fold_left sum_widths fold_right List.length] in *.
    unfold combine_screen at 2. cbn [fst snd].
    unfold CInt.INT_MAX in *.
    rewrite (to_int_id (w0 + width s))
      by (unfold CInt.INT_MIN, CInt.INT_MAX; lia).
    rewrite IH; [fold (sum_widths l); lia | exact Hl | lia].
Qed.

(** The width of the window is the sum of the widths of the monitors. *)
Lemma combined_width_is_sum (l : list XineramaScreenInfo) :
  Forall (fun s => is_short (width s)) l ->
  Z.of_nat (List.length l) <= 65535 ->
  fst (combined_size l) = sum_widths l.
Proof.
  intros Hs Hn. unfold combined_size.
  rewrite combine_width_from; [lia | exact Hs | unfold CInt.INT_MAX; lia].
Qed.

(** The scenario of two monitors of 1920 by 1080. *)
Example combined_size_twins : combined_size twin_monitors = (3840, 1080).
Proof. reflexivity. Qed.

(** Whatever the first height, a taller second monitor is added to it. *)
Lemma combined_height_of_two (x1 y1 w1 h1 x2 y2 w2 h2 : Z) :
  0 < h1 -> h1 < h2 -> is_short h2 ->
  snd (combined_size [monitor x1 y1 w1 h1; monitor x2 y2 w2 h2]) = h1 + h2.
Proof.
  intros H1 H2 [_ H3]. unfold combined_size. cbn [fold_left].
  unfold combine_screen. cbn [fst snd monitor height].
  replace (h1 >? 0) with true by (symmetry; apply Z.gtb_lt; lia).
  rewrite (to_int_id (0 + h1)) by (unfold CInt.INT_MIN, CInt.INT_MAX; lia).
  replace (h2 >? 0 + h1) with true by (symmetry; apply Z.gtb_lt; lia).
  apply to_int_id. unfold CInt.INT_MIN, CInt.INT_MAX. lia.
Qed.

(** C1, on the code.  With a monitor of 1920 by 1080 and one of 1920 by 1200
    beside it, [initialize] succeeds and creates the window at (0, 0) with
    width 3840, the sum of the widths, and height 2280, while the tallest
    monitor is 1200 high. *)
Theorem window_height_two_monitors :
  let r := initialize (env_with two_monitors) machine_start in
  result r = 0
  /\ combined_size two_monitors = (3840, 2280)
  /\ In (XCreateWindow 4096 1 0 0 3840 2280 0 24 33 7) (events r)
  /\ sum_widths two_monitors = 3840
  /\ max_height two_monitors = 1200.
Proof.
  cbv zeta. repeat split.
  vm_compute. do 4 right. left. reflexivity.
Qed.

(* ================================================================= *)
(** ** One frame *)

Lemma preserves_with_screen (i : nat) (k : XineramaScreenInfo -> Prog unit) :
  (forall s, preserves_memory (k s)) -> preserves_memory (with_screen i k).
Proof. intros Hk. unfold with_screen. preserve. apply Hk. Qed.

Lemma render_screen_preserves (i : nat) :
  Forall preserves_memory (render_screen i).
Proof.
  unfold render_screen.
  repeat (apply Forall_cons; [first [ apply preserves_with_screen; intros s;
                                      apply preserves_call
                                    | apply preserves_call
                                    | intros m; reflexivity ] |]).
  apply Forall_nil.
Qed.

Lemma pace_preserves (e : Z) : preserves_memory (pace e).
Proof. unfold pace. destruct (_ >? 0); preserve. Qed.

Lemma sequence_preserves (ps : list (Prog unit)) :
  Forall preserves_memory ps -> preserves_memory (sequence ps).
Proof.
  induction 1 as [| p ps Hp _ IH]; cbn [sequence].
  - apply preserves_ret.
  - apply preserves_bind; [exact Hp | intros _; exact IH].
Qed.

Lemma sequence_events (ps : list (Prog unit)) (m : Machine) :
  Forall preserves_memory ps ->
  events (sequence ps m) = flat_map (fun p => events (p m)) ps.
Proof.
  induction 1 as [| p ps Hp _ IH]; cbn [sequence flat_map].
  - reflexivity.
  - rewrite then_events by exact Hp. now rewrite IH.
Qed.

Lemma flat_map_twice {A B C : Type} (f : B -> list C) (g : A -> list B)
  (l : list A) :
  flat_map f (flat_map g l) = flat_map (fun x => flat_map f (g x)) l.
Proof.
  induction l as [| x l IH]; cbn [flat_map]; [reflexivity |].
  now rewrite flat_map_app, IH.
Qed.

Lemma flat_map_indexed {A B : Type} (F : option A -> list B) (pre l : list A) :
  flat_map (fun i => F (nth_error (pre ++ l) i))
    (seq (List.length pre) (List.length l))
  = flat_map (fun x => F (Some x)) l.
Proof.
  revert pre. induction l as [| x l IH]; intros pre; [reflexivity |].
  cbn [List.length seq flat_map].
  rewrite nth_error_app2, Nat.sub_diag by lia. cbn [nth_error]. f_equal.
  specialize (IH (pre ++ [x])).
  rewrite <- app_assoc, length_app in IH. cbn [app List.length] in IH.
  rewrite Nat.add_1_r in IH. exact IH.
Qed.

Lemma render_screen_events (i : nat) (m : Machine)
  (screens : list XineramaScreenInfo) :
  screen_info (app_data m) = Some screens ->
  flat_map (fun p => events (p m)) (render_screen i)
  = match nth_error screens i with
    | Some s => screen_pass (rotation_angle_x m) (rotation_angle_y m) s
    | None =>
        OutOfBounds :: GlMatrixMode GL_PROJECTION :: GlLoadIdentity
        :: OutOfBounds
        :: skipn 4 (screen_pass (rotation_angle_x m) (rotation_angle_y m)
                      (monitor 0 0 0 0))
    end.
Proof.
  intros Hs. unfold render_screen, with_screen.
  cbn [flat_map app]. unfold bind, field. cbn [events result final fst snd app].
  rewrite Hs. destruct (nth_error screens i); reflexivity.
Qed.

(** The draw passes of a frame: one per monitor, in the order of the list. *)
Lemma passes_events (m : Machine) (screens : list XineramaScreenInfo) :
  screen_info (app_data m) = Some screens ->
  events (sequence (flat_map render_screen (seq 0 (List.length screens))) m)
  = flat_map (screen_pass (rotation_angle_x m) (rotation_angle_y m)) screens.
Proof.
  intros Hs.
  rewrite sequence_events
    by (apply Forall_flat_map, Forall_forall; intros i _;
        apply render_screen_preserves).
  rewrite flat_map_twice.
  erewrite flat_map_ext by (intros i; apply (render_screen_events i m screens Hs)).
  apply (flat_map_indexed
           (fun o => match o with
                     | Some s => screen_pass (rotation_angle_x m) (rotation_angle_y m) s
                     | None => _
                     end) [] screens).
Qed.

Lemma sequence_cons_final (p : Prog unit) (ps : list (Prog unit)) (m : Machine) :
  final (sequence (p :: ps) m) = final (sequence ps (final (p m))).
Proof. reflexivity. Qed.

Lemma sequence_cons_events (p : Prog unit) (ps : list (Prog unit)) (m : Machine) :
  events (sequence (p :: ps) m)
  = events (p m) ++ events (sequence ps (final (p m))).
Proof. reflexivity. Qed.

Lemma sequence_app_final (ps qs : list (Prog unit)) (m : Machine) :
  final (sequence (ps ++ qs) m) = final (sequence qs (final (sequence ps m))).
Proof. now rewrite sequence_app. Qed.

Lemma sequence_app_events (ps qs : list (Prog unit)) (m : Machine) :
  events (sequence (ps ++ qs) m)
  = events (sequence ps m) ++ events (sequence qs (final (sequence ps m))).
Proof. now rewrite sequence_app. Qed.

Lemma passes_preserve (n : nat) :
  preserves_memory (sequence (flat_map render_screen (seq 0 n))).
Proof.
  apply sequence_preserves, Forall_flat_map, Forall_forall.
  intros i _. apply render_screen_preserves.
Qed.

Lemma call_final (e : event) (m : Machine) : final (call e m) = m.
Proof. reflexivity. Qed.

Lemma call_events (e : event) (m : Machine) : events (call e m) = [e].
Proof. reflexivity. Qed.

Lemma field_final {A : Type} (f : AppData -> A) (m : Machine) :
  final (field f m) = m.
Proof. reflexivity. Qed.

Lemma field_result {A : Type} (f : AppData -> A) (m : Machine) :
  result (field f m) = f (app_data m).
Proof. reflexivity. Qed.

Lemma field_events {A : Type} (f : AppData -> A) (m : Machine) :
  events (field f m) = [].
Proof. reflexivity. Qed.

Lemma advance_rotation_final (m : Machine) :
  final (advance_rotation m) = angles_advanced m.
Proof. reflexivity. Qed.

Lemma advance_rotation_events (m : Machine) : events (advance_rotation m) = [].
Proof. reflexivity. Qed.

Lemma sequence_nil (m : Machine) : sequence [] m = (tt, m, []).
Proof. reflexivity. Qed.

Lemma frame_final (inp : FrameInput) (m : Machine) :
  final (frame inp m) = angles_advanced m.
Proof.
  unfold frame. rewrite bind_final, field_final, field_result.
  unfold loop_body. rewrite sequence_app_final, sequence_app_final.
  rewrite !sequence_cons_final, !call_final, advance_rotation_final.
  generalize (angles_advanced m) as m1. intros m1.
  rewrite sequence_nil. change (final (tt, m1, [])) with m1.
  rewrite passes_preserve. cbn [sequence]. 
  repeat first [ rewrite bind_final | rewrite field_final | rewrite field_result
               | rewrite call_final | rewrite pace_preserves ].
  reflexivity.
Qed.

Lemma frame_events (inp : FrameInput) (m : Machine) :
  events (frame inp m)
  = [ClockGettime; GlClear]
     ++ events (sequence (flat_map render_screen
                            (seq 0 (Z.to_nat (num_screens (app_data m)))))
                  (angles_advanced m))
     ++ [GlXSwapBuffers (display (app_data m)) (window (app_data m)); ClockGettime]
     ++ events (pace (frame_time_elapsed (start_time inp) (end_time inp))
                  (angles_advanced m))
     ++ [XFlush (display (app_data m))].
Proof.
  unfold frame. rewrite bind_events, field_final, field_result, field_events.
  unfold loop_body. rewrite sequence_app_events, sequence_app_events.
  rewrite !sequence_cons_events, !sequence_cons_final.
  rewrite !call_final, !call_events, advance_rotation_final,
    advance_rotation_events.
  assert (Ha : app_data (angles_advanced m) = app_data m) by reflexivity.
  revert Ha. generalize (angles_advanced m) as m1. intros m1 Ha.
  rewrite !sequence_nil.
  change (final (tt, m1, [])) with m1.
  change (events (tt, m1, [])) with (@nil event).
  rewrite passes_preserve. cbn [sequence].
  repeat first [ rewrite bind_final | rewrite bind_events | rewrite field_final
               | rewrite field_result | rewrite field_events
               | rewrite call_final | rewrite call_events
               | rewrite pace_preserves ].
  change (events (ret tt m1)) with (@nil event).
  rewrite Ha. change (events (tt, m1, [])) with (@nil event). cbn [app]. reflexivity.
Qed.

Lemma pace_events (e : Z) (m : Machine) :
  events (pace e m)
  = if CInt.to_int (TARGET_FRAME_DURATION - e) >? 0
    then [Usleep (CInt.to_uint (CInt.to_int (TARGET_FRAME_DURATION - e)))]
    else [].
Proof. unfold pace. now destruct (_ >? 0). Qed.

Lemma passes_draws (ax ay : spec_float) (l : list XineramaScreenInfo) :
  filter is_draw (flat_map (screen_pass ax ay) l)
  = repeat (GlDrawElements 24) (List.length l).
Proof.
  induction l as [| s l IH]; [reflexivity |].
  cbn [flat_map]. rewrite filter_app, IH. reflexivity.
Qed.

Lemma passes_viewports (ax ay : spec_float) (l : list XineramaScreenInfo) :
  viewports (flat_map (screen_pass ax ay) l) = map rectangle l.
Proof.
  unfold viewports. induction l as [| s l IH]; [reflexivity |].
  cbn [flat_map map]. rewrite flat_map_app, IH. reflexivity.
Qed.

Lemma passes_aspects (ax ay : spec_float) (l : list XineramaScreenInfo) :
  aspects (flat_map (screen_pass ax ay) l) = map aspect l.
Proof.
  unfold aspects. induction l as [| s l IH]; [reflexivity |].
  cbn [flat_map map]. rewrite flat_map_app, IH. reflexivity.
Qed.

(** C3.  In a frame over a context that holds [N] monitors, the calls
    between the clear and the swap are the [N] draw passes, one per monitor
    in the order of the list: exactly [N] calls of [glDrawElements]; the
    viewports are the monitors' rectangles, in order; and the aspect ratios
    given to [gluPerspective] are, in order, each monitor's width divided by
    its height in [float] arithmetic. *)
Theorem frame_draw_passes (inp : FrameInput) (m : Machine)
  (screens : list XineramaScreenInfo) :
  screens_loaded (app_data m) screens ->
  let t := events (frame inp m) in
  let ax := rotation_angle_x (final (frame inp m)) in
  let ay := rotation_angle_y (final (frame inp m)) in
  t = [ClockGettime; GlClear]
      ++ flat_map (screen_pass ax ay) screens
      ++ [GlXSwapBuffers (display (app_data m)) (window (app_data m)); ClockGettime]
      ++ events (pace (frame_time_elapsed (start_time inp) (end_time inp)) m)
      ++ [XFlush (display (app_data m))]
  /\ filter is_draw t = repeat (GlDrawElements 24) (List.length screens)
  /\ Z.of_nat (List.length (filter is_draw t)) = num_screens (app_data m)
  /\ viewports t = map rectangle screens
  /\ aspects t
     = map (fun s => F64.of_float
                       (F32.div (F32.of_Z (width s)) (F32.of_Z (height s))))
         screens.
Proof.
  intros [Hs Hn] t ax ay.
  assert (Et : t = [ClockGettime; GlClear]
      ++ flat_map (screen_pass ax ay) screens
      ++ [GlXSwapBuffers (display (app_data m)) (window (app_data m)); ClockGettime]
      ++ events (pace (frame_time_elapsed (start_time inp) (end_time inp)) m)
      ++ [XFlush (display (app_data m))]).
  { subst t ax ay. rewrite frame_events, frame_final, Hn, Nat2Z.id.
    rewrite passes_events by exact Hs.
    rewrite !pace_events. reflexivity. }
  split; [exact Et |].
  assert (Ed : filter is_draw t = repeat (GlDrawElements 24) (List.length screens)).
  { rewrite Et, pace_events, !filter_app, passes_draws.
    destruct (_ >? 0); cbn [filter is_draw app]; now rewrite app_nil_r. }
  split; [exact Ed |].
  split; [now rewrite Ed, repeat_length, Hn |].
  split.
  - rewrite Et, pace_events. unfold viewports at 1.
    rewrite !flat_map_app. fold (viewports (flat_map (screen_pass ax ay) screens)).
    rewrite passes_viewports.
    destruct (_ >? 0); cbn [flat_map app]; now rewrite app_nil_r.
  - rewrite Et, pace_events. unfold aspects at 1.
    rewrite !flat_map_app. fold (aspects (flat_map (screen_pass ax ay) screens)).
    rewrite passes_aspects.
    destruct (_ >? 0); cbn [flat_map app]; now rewrite app_nil_r.
Qed.

Lemma initialize_two_monitors_loaded :
  screens_loaded
    (app_data (final (initialize (env_with two_monitors) machine_start)))
    two_monitors.
Proof. split; reflexivity. Qed.

Lemma frame_draw_passes_witness :
  viewports
    (events (frame quick_frame
               (final (initialize (env_with two_monitors) machine_start))))
  = [(0, 0, 1920, 1080); (1920, 0, 1920, 1200)].
Proof.
  exact (proj1 (proj2 (proj2 (proj2
           (frame_draw_passes quick_frame
              (final (initialize (env_with two_monitors) machine_start))
              two_monitors initialize_two_monitors_loaded))))).
Defined.

(** The scenario of one monitor of 1920 by 1080 at the origin: the first
    frame sets the viewport (0, 0, 1920, 1080), and the aspect ratio it
    passes is the [float] nearest to 16/9. *)
Example single_monitor_frame :
  let m := final (initialize (env_with [monitor 0 0 1920 1080]) machine_start) in
  let t := events (frame quick_frame m) in
  viewports t = [(0, 0, 1920, 1080)]
  /\ aspects t = [S754_finite false 8006399397199872 (-52)]
  /\ (Flt.value (S754_finite false 8006399397199872 (-52)) == 14913081 # 8388608)%Q
  /\ (Qabs ((14913081 # 8388608) - (1920 # 1080)) <= 1 # 16777216)%Q.
Proof.
  cbv zeta. split; [| split; [| split]].
  - vm_compute. reflexivity.
  - vm_compute. reflexivity.
  - vm_compute. reflexivity.
  - vm_compute. discriminate.
Qed.

(* ================================================================= *)
(** ** The elapsed time on a monotonic clock *)

Lemma quot_1000_bounds (a : Z) :
  (0 <= a -> 0 <= 1000 * Z.quot a 1000 <= a)
  /\ (a <= 0 -> a <= 1000 * Z.quot a 1000 <= 0).
Proof.
  pose proof (Z.quot_rem a 1000 ltac:(lia)) as E.
  split; intros Ha.
  - pose proof (Z.rem_bound_pos a 1000 Ha ltac:(lia)). lia.
  - pose proof (Z.rem_nonpos a 1000 ltac:(lia) Ha).
    pose proof (Z.rem_bound_abs a 1000 ltac:(lia)). lia.
Qed.

(** For two readings in order, less than [INT_MAX] microseconds apart,
    [frame_time_elapsed] is the exact count of microseconds, and it is not
    negative. *)
Lemma frame_time_elapsed_exact (t0 t1 : timespec) :
  valid_timespec t0 -> valid_timespec t1 ->
  tv_sec t0 < tv_sec t1 \/ (tv_sec t0 = tv_sec t1 /\ tv_nsec t0 <= tv_nsec t1) ->
  (tv_sec t1 - tv_sec t0) * 1000000 + Z.quot (tv_nsec t1 - tv_nsec t0) 1000
  <= CInt.INT_MAX ->
  frame_time_elapsed t0 t1
  = (tv_sec t1 - tv_sec t0) * 1000000 + Z.quot (tv_nsec t1 - tv_nsec t0) 1000
  /\ 0 <= frame_time_elapsed t0 t1.
Proof.
  unfold valid_timespec, frame_time_elapsed, CInt.INT_MAX.
  intros [Hs0 Hn0] [Hs1 Hn1] Hord Hmax.
  destruct (quot_1000_bounds (tv_nsec t1 - tv_nsec t0)) as [Qp Qn].
  set (q := Z.quot (tv_nsec t1 - tv_nsec t0) 1000) in *.
  rewrite (to_long_id (tv_sec t1 - tv_sec t0)) by lia.
  rewrite (to_long_id (tv_nsec t1 - tv_nsec t0)) by lia.
  assert (Hq : -1000000000 <= q <= 1000000000) by lia.
  rewrite (to_long_id ((tv_sec t1 - tv_sec t0) * 1000000)) by lia.
  rewrite to_long_id by lia.
  assert (H0 : 0 <= (tv_sec t1 - tv_sec t0) * 1000000 + q) by lia.
  rewrite to_int_id by (unfold CInt.INT_MIN, CInt.INT_MAX; lia).
  split; [reflexivity | exact H0].
Qed.

(* ================================================================= *)
(** ** Frame pacing *)

Example target_frame_duration : TARGET_FRAME_DURATION = 16666.
Proof. reflexivity. Qed.

Lemma pace_sleeps (e : Z) (m : Machine) :
  TARGET_FRAME_DURATION - e <= CInt.INT_MAX -> e < TARGET_FRAME_DURATION ->
  pace e m = (tt, m, [Usleep (TARGET_FRAME_DURATION - e)]).
Proof.
  intros He Hlt. unfold pace. rewrite target_frame_duration in *.
  unfold CInt.INT_MAX in He.
  rewrite to_int_id by (unfold CInt.INT_MIN, CInt.INT_MAX; lia).
  replace (16666 - e >? 0) with true by (symmetry; apply Z.gtb_lt; lia).
  rewrite to_uint_id by lia. reflexivity.
Qed.

Lemma pace_no_sleep (e : Z) (m : Machine) :
  e <= CInt.INT_MAX -> TARGET_FRAME_DURATION <= e ->
  pace e m = (tt, m, []).
Proof.
  intros He Hge. unfold pace. rewrite target_frame_duration in *.
  unfold CInt.INT_MAX in He.
  rewrite to_int_id by (unfold CInt.INT_MIN, CInt.INT_MAX; lia).
  destruct (16666 - e >? 0) eqn:E; [apply Z.gtb_lt in E; lia | reflexivity].
Qed.

Lemma frame_time_elapsed_range (t0 t1 : timespec) :
  CInt.INT_MIN <= frame_time_elapsed t0 t1 <= CInt.INT_MAX.
Proof. apply to_int_range. Qed.

Lemma passes_never_sleep (n : nat) (m : Machine) :
  filter is_sleep (events (sequence (flat_map render_screen (seq 0 n)) m)) = [].
Proof.
  rewrite sequence_events
    by (apply Forall_flat_map, Forall_forall; intros i _;
        apply render_screen_preserves).
  rewrite flat_map_twice.
  induction (seq 0 n) as [| i l IH]; [reflexivity |].
  cbn [flat_map]. rewrite filter_app, IH, app_nil_r.
  unfold render_screen, with_screen.
  cbn [flat_map app]. unfold bind, field. cbn [events result final fst snd app].
  destruct (screen_info (app_data m)) as [screens |]; [| reflexivity].
  destruct (nth_error screens i); reflexivity.
Qed.

Lemma frame_sleeps (inp : FrameInput) (m : Machine) :
  filter is_sleep (events (frame inp m))
  = events (pace (frame_time_elapsed (start_time inp) (end_time inp)) m).
Proof.
  rewrite frame_events, !filter_app, passes_never_sleep, !pace_events.
  destruct (_ >? 0); reflexivity.
Qed.

Lemma frame_without_sleep (inp inp' : FrameInput) (m : Machine) :
  filter (fun e => negb (is_sleep e)) (events (frame inp m))
  = filter (fun e => negb (is_sleep e)) (events (frame inp' m)).
Proof.
  rewrite !frame_events, !filter_app, !pace_events.
  do 3 f_equal.
  destruct (_ >? 0), (_ >? 0); reflexivity.
Qed.

(** Pacing on the [int] the loop computes.  With [e] the elapsed
    microseconds of a frame, as the loop computes
    them from its two clock readings, and wherever the subtraction
    [TARGET_FRAME_DURATION - e] stays within [int] (as it does for every
    [e] that is not negative): when [e] is below the budget of
    1000000 / 60 = 16666 microseconds the frame sleeps once, for exactly
    [16666 - e]; when [e] reaches the budget it does not sleep.  Either way
    the frame is the same but for the sleep: every other call is issued and
    the angles advance by one step, whatever the clock readings. *)
Theorem frame_pacing (inp : FrameInput) (m : Machine) :
  let e := frame_time_elapsed (start_time inp) (end_time inp) in
  TARGET_FRAME_DURATION - e <= CInt.INT_MAX ->
  TARGET_FRAME_DURATION = Z.quot 1000000 60
  /\ (e < TARGET_FRAME_DURATION ->
      filter is_sleep (events (frame inp m)) = [Usleep (TARGET_FRAME_DURATION - e)])
  /\ (TARGET_FRAME_DURATION <= e ->
      filter is_sleep (events (frame inp m)) = [])
  /\ (forall inp' : FrameInput,
        final (frame inp' m) = final (frame inp m)
        /\ filter (fun e => negb (is_sleep e)) (events (frame inp' m))
           = filter (fun e => negb (is_sleep e)) (events (frame inp m))).
Proof.
  intros e He.
  pose proof (frame_time_elapsed_range (start_time inp) (end_time inp)) as Hr.
  fold e in Hr.
  split; [reflexivity |]. split; [| split].
  - intros Hlt. rewrite frame_sleeps. fold e. now rewrite pace_sleeps.
  - intros Hge. rewrite frame_sleeps. fold e.
    now rewrite pace_no_sleep by (try apply Hr; assumption).
  - intros inp'. split.
    + now rewrite !frame_final.
    + apply frame_without_sleep.
Qed.

Lemma frame_pacing_witness :
  filter is_sleep (events (frame quick_frame machine_start)) = [Usleep 16662]
  /\ filter is_sleep (events (frame last_frame machine_start)) = [].
Proof.
  split.
  - apply (frame_pacing quick_frame machine_start); vm_compute; congruence.
  - apply (frame_pacing last_frame machine_start); vm_compute; congruence.
Defined.

(* ================================================================= *)
(** ** The statements of the loop body *)

Lemma with_terminate_same (m : Machine) : with_terminate (terminate m) m = m.
Proof. now destruct m. Qed.

Lemma flag_blind_call (e : event) : flag_blind (call e).
Proof. intros v m. reflexivity. Qed.

Lemma flag_blind_advance_rotation : flag_blind advance_rotation.
Proof. intros v m. reflexivity. Qed.

Lemma flag_blind_with_screen (i : nat) (k : XineramaScreenInfo -> Prog unit) :
  (forall s, flag_blind (k s)) -> flag_blind (with_screen i k).
Proof.
  intros Hk v m. unfold with_screen, bind, field.
  cbn [result final events fst snd app_data with_terminate app].
  destruct (screen_info (app_data m)) as [screens |]; [| reflexivity].
  destruct (nth_error screens i) as [s |]; [| reflexivity].
  rewrite (Hk s v m). reflexivity.
Qed.

Lemma flag_blind_pace (e : Z) : flag_blind (pace e).
Proof. intros v m. unfold pace. now destruct (_ >? 0). Qed.

Lemma render_screen_flag_blind (i : nat) : Forall flag_blind (render_screen i).
Proof.
  unfold render_screen.
  repeat (apply Forall_cons; [first [ apply flag_blind_with_screen; intros s;
                                      apply flag_blind_call
                                    | apply flag_blind_call
                                    | intros v m; reflexivity ] |]).
  apply Forall_nil.
Qed.

Lemma loop_body_flag_blind (inp : FrameInput) (n : Z) :
  Forall flag_blind (loop_body inp n).
Proof.
  unfold loop_body. rewrite !Forall_app. split; [| split].
  - repeat (apply Forall_cons;
            [first [apply flag_blind_call | apply flag_blind_advance_rotation] |]).
    apply Forall_nil.
  - apply Forall_flat_map, Forall_forall. intros i _.
    apply render_screen_flag_blind.
  - repeat (apply Forall_cons;
            [first [ apply flag_blind_call | apply flag_blind_pace
                   | intros v m; reflexivity ] |]).
    apply Forall_nil.
Qed.

Lemma preserves_keeps (p : Prog unit) : preserves_memory p -> keeps_app_data p.
Proof. intros Hp m. now rewrite Hp. Qed.

Lemma loop_body_keeps_app_data (inp : FrameInput) (n : Z) :
  Forall keeps_app_data (loop_body inp n).
Proof.
  unfold loop_body. rewrite !Forall_app. split; [| split].
  - repeat (apply Forall_cons;
            [first [ apply preserves_keeps, preserves_call
                   | intros m; reflexivity ] |]).
    apply Forall_nil.
  - apply Forall_flat_map, Forall_forall. intros i _.
    eapply Forall_impl; [apply preserves_keeps | apply render_screen_preserves].
  - repeat (apply Forall_cons;
            [first [ apply preserves_keeps, preserves_call
                   | apply preserves_keeps, pace_preserves
                   | intros m; reflexivity ] |]).
    apply Forall_nil.
Qed.

Lemma flag_blind_terminate (p : Prog unit) (m : Machine) :
  flag_blind p -> terminate (final (p m)) = terminate m.
Proof.
  intros Hp. specialize (Hp (terminate m) m).
  rewrite with_terminate_same in Hp. rewrite Hp. reflexivity.
Qed.

Lemma sequence_flag_blind (ps : list (Prog unit)) :
  Forall flag_blind ps -> flag_blind (sequence ps).
Proof.
  induction 1 as [| p ps Hp _ IH]; intros v m.
  - reflexivity.
  - cbn [sequence]. unfold bind. rewrite (Hp v m).
    cbn [result final events fst snd]. rewrite (IH v (final (p m))).
    reflexivity.
Qed.

Lemma sequence_keeps_app_data (ps : list (Prog unit)) :
  Forall keeps_app_data ps -> keeps_app_data (sequence ps).
Proof.
  induction 1 as [| p ps Hp _ IH]; intros m.
  - reflexivity.
  - rewrite sequence_cons_final, IH. apply Hp.
Qed.

Lemma signal_handler_final (signum : Z) (m : Machine) :
  signum = SIGINT \/ signum = SIGTERM ->
  final (signal_handler signum m) = with_terminate 1 m.
Proof. intros [H | H]; subst; reflexivity. Qed.

Lemma signal_handler_keeps_app_data (signum : Z) :
  keeps_app_data (signal_handler signum).
Proof.
  intros m. unfold signal_handler. now destruct (_ || _).
Qed.

Lemma signal_handler_events (signum : Z) (m : Machine) :
  events (signal_handler signum m) = [].
Proof. unfold signal_handler. now destruct (_ || _). Qed.

Lemma signal_handler_terminate (signum : Z) (m : Machine) :
  terminate (final (signal_handler signum m)) = 1
  \/ final (signal_handler signum m) = m.
Proof. unfold signal_handler. destruct (_ || _); [now left | now right]. Qed.

Lemma frame_keeps_app_data (inp : FrameInput) : keeps_app_data (frame inp).
Proof. intros m. now rewrite frame_final. Qed.

Lemma frame_as_body (inp : FrameInput) (m : Machine) :
  events (sequence (loop_body inp (num_screens (app_data m))) m)
  = events (frame inp m).
Proof. unfold frame. now rewrite bind_events, field_events, field_final, field_result. Qed.

Lemma frame_calls (inp : FrameInput) (m : Machine) :
  forallb is_frame_call (events (frame inp m)) = true.
Proof.
  rewrite frame_events, !forallb_app, !pace_events.
  assert (P : forallb is_frame_call
                (events (sequence
                   (flat_map render_screen
                      (seq 0 (Z.to_nat (num_screens (app_data m)))))
                   (angles_advanced m))) = true).
  { generalize (angles_advanced m) as m1. intros m1.
    rewrite sequence_events
      by (apply Forall_flat_map, Forall_forall; intros i _;
          apply render_screen_preserves).
    rewrite flat_map_twice.
    induction (seq 0 _) as [| i l IH]; [reflexivity |].
    cbn [flat_map]. rewrite forallb_app, IH, andb_true_r.
    unfold render_screen, with_screen.
    cbn [flat_map app]. unfold bind, field.
    cbn [events result final fst snd app].
    destruct (screen_info (app_data m1)) as [screens |]; [| reflexivity].
    destruct (nth_error screens i); reflexivity. }
  rewrite P. destruct (_ >? 0); reflexivity.
Qed.

Lemma filter_frame_calls (f : event -> bool) (t : list event) :
  (forall e, is_frame_call e = true -> f e = false) ->
  forallb is_frame_call t = true -> filter f t = [].
Proof.
  intros Hf. induction t as [| e t IH]; [reflexivity |].
  cbn [forallb filter]. intros H. apply andb_prop in H as [He Ht].
  rewrite (Hf e He). now apply IH.
Qed.

Lemma frame_reads_no_flag (inp : FrameInput) (m : Machine) :
  filter is_flag_read (events (frame inp m)) = [].
Proof.
  apply filter_frame_calls; [| apply frame_calls].
  intros e. now destruct e.
Qed.

Lemma frame_queries_no_monitors (inp : FrameInput) (m : Machine) :
  filter is_monitor_query (events (frame inp m)) = [].
Proof.
  apply filter_frame_calls; [| apply frame_calls].
  intros e. now destruct e.
Qed.

(* ================================================================= *)
(** ** The loop with signals between statements *)

Import Interleaved.

Lemma entry_well_formed (m : Machine) : well_formed (app_data m) (entry m).
Proof. split; [reflexivity | apply frames_none]. Qed.

Lemma prog_step_well_formed (a : AppData) (s1 s2 : state) :
  prog_step s1 s2 -> well_formed a s1 -> well_formed a s2.
Proof.
  intros Hstep [Ha Hc]. unfold well_formed.
  destruct Hstep as [m t Hm | m t inp Hm | m s rest t | m t];
    cbn [mach ctl issued] in *.
  - split; [exact Ha |]. exists t, (terminate m). auto.
  - split; [exact Ha |]. rewrite Hm.
    split; [apply loop_body_flag_blind |].
    split; [apply loop_body_keeps_app_data |].
    exists t, [], inp, m.
    split; [exact Hc |]. split; [exact Ha |]. split; [reflexivity |].
    apply frame_as_body.
  - destruct Hc as [Hb [Hk [t0 [done [inp [m0 [Hf [Hm0 [Hi Hd]]]]]]]]].
    apply Forall_cons_iff in Hb as [Hbs Hbr].
    apply Forall_cons_iff in Hk as [Hks Hkr].
    split; [now rewrite Hks |].
    split; [exact Hbr |]. split; [exact Hkr |].
    exists t0, (done ++ events (s m)), inp, m0. repeat split; auto.
    + rewrite Hi, <- app_assoc. reflexivity.
    + rewrite <- Hd, sequence_cons_events, app_assoc. reflexivity.
  - destruct Hc as [_ [_ [t0 [done [inp [m0 [Hf [Hm0 [Hi Hd]]]]]]]]].
    split; [exact Ha |]. rewrite Hi.
    rewrite sequence_nil in Hd. cbn [events snd] in Hd.
    rewrite app_nil_r in Hd. subst done.
    now apply frames_more.
Qed.

Lemma signal_step_well_formed (a : AppData) (s1 s2 : state) :
  signal_step s1 s2 -> well_formed a s1 -> well_formed a s2.
Proof.
  intros Hstep [Ha Hc]. destruct Hstep as [signum st Hsig].
  unfold well_formed. cbn [mach ctl issued] in *.
  split; [now rewrite signal_handler_keeps_app_data |].
  destruct (ctl st) as [| rest |]; try exact Hc.
  destruct Hc as [Hb [Hk [t0 [done [inp [m0 [Hf [Hm0 [Hi Hd]]]]]]]]].
  split; [exact Hb |]. split; [exact Hk |].
  exists t0, done, inp, m0. repeat split; auto.
  rewrite signal_handler_final by exact Hsig.
  rewrite (sequence_flag_blind rest Hb 1 (mach st)). exact Hd.
Qed.

Lemma run_well_formed (a : AppData) (n : nat) (s1 s2 : state) :
  run n s1 s2 -> well_formed a s1 -> well_formed a s2.
Proof.
  induction 1 as [s | n s1 s2 s3 Hs _ IH | n s1 s2 s3 Hs _ IH]; intros Hw.
  - exact Hw.
  - apply IH. now apply (prog_step_well_formed a s1).
  - apply IH. now apply (signal_step_well_formed a s1).
Qed.

(** Once the flag is set, what is issued and what is left add up to the
    same trace, and every program step uses up one of the steps left. *)
Lemma flagged_run (a : AppData) (n : nat) (st st' : state) :
  run n st st' -> well_formed a st -> terminate (mach st) = 1 ->
  terminate (mach st') = 1
  /\ issued st' ++ remaining st' = issued st ++ remaining st
  /\ (n + steps_left st' = steps_left st)%nat.
Proof.
  induction 1 as [s | n s1 s2 s3 Hs _ IH | n s1 s2 s3 Hs _ IH]; intros Hw Ht.
  - auto.
  - pose proof (prog_step_well_formed a s1 s2 Hs Hw) as Hw2.
    destruct Hw as [_ Hc].
    destruct Hs as [m t Hm | m t inp Hm | m s rest t | m t];
      cbn [mach ctl issued] in *.
    + destruct (IH Hw2 Ht) as [H1 [H2 H3]].
      split; [exact H1 |]. split.
      * rewrite H2. unfold remaining. cbn [mach ctl issued].
        now rewrite app_nil_r.
      * unfold steps_left in *. cbn [ctl] in *. lia.
    + lia.
    + destruct Hc as [Hb _]. apply Forall_cons_iff in Hb as [Hbs Hbr].
      assert (Ht2 : terminate (final (s m)) = 1)
        by now rewrite flag_blind_terminate.
      destruct (IH Hw2 Ht2) as [H1 [H2 H3]].
      split; [exact H1 |]. split.
      * rewrite H2. unfold remaining. cbn [mach ctl issued].
        rewrite sequence_cons_events, Ht, Ht2, <- !app_assoc. reflexivity.
      * unfold steps_left in *. cbn [ctl List.length] in *. lia.
    + destruct (IH Hw2 Ht) as [H1 [H2 H3]].
      split; [exact H1 |]. split.
      * rewrite H2. unfold remaining. cbn [mach ctl issued].
        rewrite sequence_nil. reflexivity.
      * unfold steps_left in *. cbn [ctl List.length] in *. lia.
  - pose proof (signal_step_well_formed a s1 s2 Hs Hw) as Hw2.
    destruct Hs as [signum st Hsig].
    assert (E : final (signal_handler signum (mach st)) = mach st).
    { rewrite signal_handler_final by exact Hsig.
      rewrite <- Ht. apply with_terminate_same. }
    cbn [mach ctl issued] in *. rewrite E in IH, Hw2.
    destruct st as [m c t]. cbn [mach ctl issued] in *.
    now apply IH.
Qed.

Lemma never_stuck (st : state) :
  ctl st = Returned \/ exists st', prog_step st st'.
Proof.
  destruct st as [m c t]. destruct c as [| [| s rest] |]; cbn [ctl].
  - right. destruct (Z.eq_dec (terminate m) 0) as [E | E].
    + eexists. apply (step_enter m t quick_frame E).
    + eexists. apply (step_leave m t E).
  - right. eexists. apply step_again.
  - right. eexists. apply step_stmt.
  - now left.
Qed.

(* ================================================================= *)
(** ** [initialize] step by step *)

Ltac init_compute :=
  cbn [initialize setup_buffers bind call store field fail ret result final
       events fst snd app with_app_data app_data
       set_display set_window set_screen_info set_visual_info set_glx_context
       set_color_map set_vertex_buffer set_index_buffer set_color_buffer
       set_num_screens
       display window screen_info visual_info glx_context color_map
       vertex_buffer index_buffer color_buffer num_screens
       env_display env_screens env_root env_visual env_colormap env_window
       env_glx_context env_atom env_glew_ok env_vertex_buffer env_index_buffer
       env_color_buffer negb].

Ltac before_step :=
  repeat (apply Forall_cons;
          [ let s' := fresh in let H := fresh in
            intros s' H; cbn [acquisition] in H;
            first [ discriminate H
                  | injection H as <-; cbn [step_index]; lia ] |]);
  apply Forall_nil.

Lemma initialize_outcome (env : XEnv) (m : Machine) :
  match first_failure env with
  | Some s =>
      result (initialize env m) = -1
      /\ exists (t : list event) (e : event),
          events (initialize env m) = t ++ [e; Fprintf (diagnostic s ++ LF)%string]
          /\ acquisition e = Some s
          /\ only_before s t
  | None =>
      result (initialize env m) = 0
      /\ terminate (final (initialize env m)) = terminate m
      /\ filter is_monitor_query (events (initialize env m))
         = [XineramaQueryScreens (env_display env)]
      /\ exists screens : list XineramaScreenInfo,
          env_screens env = Some screens
          /\ screens_loaded (app_data (final (initialize env m))) screens
  end.
Proof.
  destruct env as [d sc root vi cm win ctx atom glew vb ib cb].
  unfold first_failure, step_fails, only_before.
  cbn [find env_display env_screens env_visual env_colormap env_window
       env_glx_context env_glew_ok is_some negb].
  unfold initialize.
  destruct (d =? 0) eqn:Ed.
  { init_compute. rewrite Ed. init_compute.
    split; [reflexivity |]. exists [], XOpenDisplay.
    split; [reflexivity |]. split; [reflexivity | before_step]. }
  destruct sc as [screens |]; cbn [is_some negb].
  2:{ init_compute. rewrite Ed. init_compute.
      split; [reflexivity |]. eexists [_], _.
      split; [reflexivity |]. split; [reflexivity | before_step]. }
  destruct vi as [v |]; cbn [is_some negb].
  2:{ init_compute. rewrite Ed. init_compute.
      split; [reflexivity |]. eexists [_; _], _.
      split; [reflexivity |]. split; [reflexivity | before_step]. }
  destruct (cm =? 0) eqn:Ecm.
  { init_compute. rewrite Ed. init_compute. rewrite Ecm. init_compute.
    split; [reflexivity |]. eexists [_; _; _], _.
    split; [reflexivity |]. split; [reflexivity | before_step]. }
  destruct (win =? 0) eqn:Ewin.
  { init_compute. rewrite Ed. init_compute. rewrite Ecm. init_compute.
    rewrite Ewin. init_compute.
    split; [reflexivity |]. eexists [_; _; _; _], _.
    split; [reflexivity |]. split; [reflexivity | before_step]. }
  destruct (ctx =? 0) eqn:Ectx.
  { init_compute. rewrite Ed. init_compute. rewrite Ecm. init_compute.
    rewrite Ewin. init_compute. rewrite Ectx. init_compute.
    split; [reflexivity |]. eexists [_; _; _; _; _; _], _.
    split; [reflexivity |]. split; [reflexivity | before_step]. }
  destruct glew; cbn [negb].
  2:{ init_compute. rewrite Ed. init_compute. rewrite Ecm. init_compute.
      rewrite Ewin. init_compute. rewrite Ectx. init_compute.
      split; [reflexivity |]. eexists [_; _; _; _; _; _; _; _; _; _; _; _], _.
      split; [reflexivity |]. split; [reflexivity | before_step]. }
  init_compute. rewrite Ed. init_compute. rewrite Ecm. init_compute.
  rewrite Ewin. init_compute. rewrite Ectx. init_compute.
  split; [reflexivity |]. split; [reflexivity |]. split; [reflexivity |].
  exists screens. split; [reflexivity |]. split; reflexivity.
Qed.

(* ================================================================= *)
(** ** Signals and the loop as a whole *)

Lemma deliver_events (sigs : list Z) (m : Machine) : events (deliver sigs m) = [].
Proof.
  unfold deliver. revert m. induction sigs as [| s sigs IH]; intros m.
  - reflexivity.
  - cbn [map]. rewrite sequence_cons_events, IH, signal_handler_events.
    reflexivity.
Qed.

Lemma deliver_keeps_app_data (sigs : list Z) : keeps_app_data (deliver sigs).
Proof.
  unfold deliver. apply sequence_keeps_app_data, Forall_map, Forall_forall.
  intros s _. apply signal_handler_keeps_app_data.
Qed.

Lemma deliver_flag_stays (sigs : list Z) (m : Machine) :
  terminate m = 1 -> terminate (final (deliver sigs m)) = 1.
Proof.
  unfold deliver. revert m. induction sigs as [| s sigs IH]; intros m Hm.
  - exact Hm.
  - cbn [map]. rewrite sequence_cons_final. apply IH.
    destruct (signal_handler_terminate s m) as [H | H]; [exact H |].
    now rewrite H.
Qed.

Lemma deliver_sets_flag (sigs : list Z) (sig : Z) (m : Machine) :
  In sig sigs -> sig = SIGINT \/ sig = SIGTERM ->
  terminate (final (deliver sigs m)) = 1.
Proof.
  unfold deliver. revert m. induction sigs as [| s sigs IH]; intros m Hin Hsig.
  - destruct Hin.
  - cbn [map]. rewrite sequence_cons_final. destruct Hin as [-> | Hin].
    + apply (deliver_flag_stays sigs).
      now rewrite signal_handler_final.
    + now apply IH.
Qed.

Lemma frame_then_signals_final (inp : FrameInput) (m : Machine) :
  final ((frame inp ;; deliver (signals inp)) m)
  = final (deliver (signals inp) (final (frame inp m))).
Proof. now rewrite bind_final. Qed.

Lemma frame_then_signals_events (inp : FrameInput) (m : Machine) :
  events ((frame inp ;; deliver (signals inp)) m) = events (frame inp m).
Proof. now rewrite bind_events, deliver_events, app_nil_r. Qed.

Lemma main_loop_keeps_app_data (fuel : nat) (inputs : nat -> FrameInput)
  (k : nat) (m m' : Machine) (tr : list event) :
  main_loop fuel inputs k m = Some (m', tr) -> app_data m' = app_data m.
Proof.
  revert k m tr. induction fuel as [| fuel IH]; intros k m tr H.
  - discriminate.
  - cbn [main_loop] in H. destruct (terminate m =? 0).
    + destruct (main_loop fuel inputs (S k) _) as [[m2 tr2] |] eqn:E;
        [| discriminate].
      injection H as <- _. rewrite (IH _ _ _ E).
      rewrite frame_then_signals_final, deliver_keeps_app_data.
      apply frame_keeps_app_data.
    + now injection H as <- _.
Qed.

Lemma after_frames_keeps_app_data (n : nat) (inputs : nat -> FrameInput)
  (k : nat) (m : Machine) :
  app_data (after_frames n inputs k m) = app_data m.
Proof.
  revert k m. induction n as [| n IH]; intros k m; [reflexivity |].
  cbn [after_frames]. rewrite IH, frame_then_signals_final.
  rewrite deliver_keeps_app_data. apply frame_keeps_app_data.
Qed.

(** The loop returns once a frame has seen SIGINT or SIGTERM. *)
Lemma main_loop_exits (k extra : nat) (inputs : nat -> FrameInput) (j : nat)
  (sig : Z) (m : Machine) :
  In sig (signals (inputs (j + k)%nat)) -> sig = SIGINT \/ sig = SIGTERM ->
  exists (m' : Machine) (tr : list event),
    main_loop (k + 2 + extra) inputs j m = Some (m', tr).
Proof.
  revert j m. induction k as [| k IH]; intros j m Hin Hsig.
  - rewrite Nat.add_0_r in Hin. cbn [Nat.add main_loop].
    destruct (terminate m =? 0); [| eauto].
    rewrite frame_then_signals_final.
    rewrite (deliver_sets_flag _ sig _ Hin Hsig). cbn [Z.eqb]. eauto.
  - replace (S k + 2 + extra)%nat with (S (k + 2 + extra)) by lia.
    cbn [main_loop]. destruct (terminate m =? 0); [| eauto].
    replace (j + S k)%nat with (S j + k)%nat in Hin by lia.
    destruct (IH (S j) (final ((frame (inputs j) ;; deliver (signals (inputs j))) m))
                Hin Hsig) as [m' [tr E]].
    rewrite E. eauto.
Qed.

Lemma main_unfold (fuel : nat) (w : World) :
  main fuel w
  = let r := initialize (x_env w) machine_start in
    if negb (result r =? 0) then
      Some ([Signal SIGINT; Signal SIGTERM] ++ events r
            ++ [Fprintf ("Initialization failed" ++ LF)%string]
            ++ releases (app_data (final r)) ++ [Exit EXIT_FAILURE],
            EXIT_FAILURE)
    else
      match main_loop fuel (frame_inputs w) 0
              (final (deliver (init_signals w) (final r))) with
      | None => None
      | Some (m, tr) =>
          Some ([Signal SIGINT; Signal SIGTERM] ++ events r ++ tr
                ++ releases (app_data m) ++ [Exit EXIT_SUCCESS],
                EXIT_SUCCESS)
      end.
Proof.
  unfold main. cbv zeta.
  rewrite !bind_result, !bind_final, !bind_events, !call_final, !call_events.
  generalize (initialize (x_env w) machine_start) as r. intros r.
  rewrite deliver_events.
  change (result (ret (result r) (final (deliver (init_signals w) (final r)))))
    with (result r).
  change (final (ret (result r) (final (deliver (init_signals w) (final r)))))
    with (final (deliver (init_signals w) (final r))).
  change (events (ret (result r) (final (deliver (init_signals w) (final r)))))
    with (@nil event).
  destruct (negb (result r =? 0)).
  - rewrite cleanup_events, deliver_keeps_app_data.
    rewrite !app_nil_r, <- !app_assoc. reflexivity.
  - destruct (main_loop _ _ _ _) as [[m tr] |]; [| reflexivity].
    rewrite ?bind_events, ?cleanup_events, ?call_events.
    rewrite !app_nil_r, <- !app_assoc. reflexivity.
Qed.

(* ================================================================= *)
(** ** Failure of [initialize] and the exit status of [main] *)

(** C7.  When some step of [initialize] fails, the first such step [s]
    decides the run: [initialize] returns -1; its trace ends with the failed
    acquisition call followed by the diagnostic of [s], and holds no
    acquisition of a later step; [main] then prints its own message, issues
    the releases of the handles set so far, and exits with [EXIT_FAILURE],
    which is not 0.  When no step fails, [initialize] returns 0 and a run of
    [main] that leaves the loop releases the context and exits with status
    0; it does leave the loop once SIGINT or SIGTERM arrives. *)
Theorem initialization_failure_policy (w : World) (fuel : nat) :
  let r := initialize (x_env w) machine_start in
  match first_failure (x_env w) with
  | Some s =>
      result r = -1
      /\ (exists (t : list event) (e : event),
             events r = t ++ [e; Fprintf (diagnostic s ++ LF)%string]
             /\ acquisition e = Some s
             /\ only_before s t)
      /\ main fuel w
         = Some ([Signal SIGINT; Signal SIGTERM] ++ events r
                 ++ [Fprintf ("Initialization failed" ++ LF)%string]
                 ++ releases (app_data (final r)) ++ [Exit EXIT_FAILURE],
                 EXIT_FAILURE)
      /\ EXIT_FAILURE <> 0
  | None =>
      result r = 0
      /\ (forall (tr : list event) (status : Z),
             main fuel w = Some (tr, status) ->
             status = EXIT_SUCCESS
             /\ exists loop_trace : list event,
                 tr = [Signal SIGINT; Signal SIGTERM] ++ events r ++ loop_trace
                      ++ releases (app_data (final r)) ++ [Exit EXIT_SUCCESS])
      /\ (forall (k : nat) (sig : Z),
             In sig (signals (frame_inputs w k)) ->
             sig = SIGINT \/ sig = SIGTERM ->
             (k + 2 <= fuel)%nat ->
             exists tr : list event, main fuel w = Some (tr, EXIT_SUCCESS))
  end.
Proof.
  intros r. subst r.
  pose proof (initialize_outcome (x_env w) machine_start) as O.
  rewrite (main_unfold fuel w). cbv zeta.
  destruct (first_failure (x_env w)) as [s |].
  - destruct O as [Hr Ht]. rewrite Hr. cbn [Z.eqb negb].
    split; [reflexivity |]. split; [exact Ht |].
    split; [reflexivity | discriminate].
  - destruct O as [Hr _]. rewrite Hr. cbn [Z.eqb negb].
    split; [reflexivity |]. split.
    + intros tr status H.
      destruct (main_loop _ _ _ _) as [[m lt] |] eqn:E; [| discriminate].
      injection H as <- <-. split; [reflexivity |]. exists lt.
      rewrite (main_loop_keeps_app_data _ _ _ _ _ _ E).
      now rewrite deliver_keeps_app_data.
    + intros k sig Hin Hsig Hfuel.
      destruct (main_loop_exits k (fuel - (k + 2)) (frame_inputs w) 0 sig
                  (final (deliver (init_signals w)
                            (final (initialize (x_env w) machine_start))))
                  Hin Hsig) as [m' [lt E]].
      replace (k + 2 + (fuel - (k + 2)))%nat with fuel in E by lia.
      rewrite E. eauto.
Qed.

(** The two-frame world of the samples: all succeeds and [main] exits 0. *)
Example main_two_frames_exits_0 :
  exists tr : list event, main 3 world_two_frames = Some (tr, 0).
Proof. eexists. vm_compute. reflexivity. Qed.

(** Without Xinerama: the diagnostic, the release of the display, status 1. *)
Example main_no_monitors :
  main 0 {| x_env := env_no_monitors; init_signals := [];
            frame_inputs := fun _ => quick_frame |}
  = Some ([Signal 2; Signal 15; XOpenDisplay; XineramaQueryScreens 4096;
           Fprintf ("Failed to query multi-monitor information" ++ LF)%string;
           Fprintf ("Initialization failed" ++ LF)%string;
           XCloseDisplay 4096; Exit 1], 1).
Proof. vm_compute. reflexivity. Qed.

(* ================================================================= *)
(** ** The flag and the frame boundary *)

(** The loop statement by statement.  In every execution of the loop,
    signals arriving between any two
    statements, the trace is made of whole frames, each preceded by the one
    read of [terminate] that found it clear (a frame itself never reads the
    flag), and the loop is left only by a read at the test.  Once the flag
    is set, what the loop still issues is exactly the rest of the frame in
    progress followed by the read that leaves: the steps left are counted
    down one per program step, the loop is never stuck before it has
    returned, and no further frame is begun. *)
Theorem loop_exits_at_frame_boundary (m0 : Machine) (k : nat) (st : state) :
  run k (entry m0) st ->
  well_formed (app_data m0) st
  /\ (forall (inp : FrameInput) (m : Machine),
         filter is_flag_read (events (frame inp m)) = [])
  /\ (terminate (mach st) = 1 ->
      forall (n : nat) (st' : state),
        run n st st' ->
        terminate (mach st') = 1
        /\ issued st' ++ remaining st' = issued st ++ remaining st
        /\ (n + steps_left st' = steps_left st)%nat
        /\ (ctl st' = Returned -> issued st' = issued st ++ remaining st)
        /\ (ctl st' = Returned \/ exists st'', prog_step st' st'')).
Proof.
  intros Hrun.
  pose proof (run_well_formed _ _ _ _ Hrun (entry_well_formed m0)) as Hw.
  split; [exact Hw |]. split; [apply frame_reads_no_flag |].
  intros Ht n st' Hrun'.
  destruct (flagged_run _ _ _ _ Hrun' Hw Ht) as [H1 [H2 H3]].
  split; [exact H1 |]. split; [exact H2 |]. split; [exact H3 |]. split.
  - intros Hc. rewrite <- H2. unfold remaining. rewrite Hc.
    now rewrite app_nil_r.
  - apply never_stuck.
Qed.

Lemma interrupted_state_reached :
  run 1 (entry machine_two_monitors) interrupted_state.
Proof.
  eapply run_prog.
  - apply (step_enter machine_two_monitors [] quick_frame). reflexivity.
  - eapply run_signal.
    + apply (step_signal SIGTERM). now right.
    + apply run_done.
Qed.

Lemma loop_exits_at_frame_boundary_witness :
  well_formed (app_data machine_two_monitors) interrupted_state.
Proof.
  exact (proj1 (loop_exits_at_frame_boundary machine_two_monitors 1
                  interrupted_state interrupted_state_reached)).
Defined.

(** From the state of the sample, the 27 statements left and the test: the
    loop has returned, having issued the rest of that frame and nothing of
    another one. *)
Example interrupted_frame_is_completed :
  steps_left interrupted_state = 29%nat
  /\ filter is_draw (remaining interrupted_state)
     = [GlDrawElements 24; GlDrawElements 24]
  /\ filter is_flag_read (remaining interrupted_state) = [ReadTerminate 1]
  /\ List.length (filter (fun e => match e with ClockGettime => true | _ => false end)
               (remaining interrupted_state)) = 2%nat.
Proof. repeat split; vm_compute; reflexivity. Qed.

(* ================================================================= *)
(** ** The monitor list after startup *)

(** C9.  A successful [initialize] queries the monitors once and leaves in
    the context the list the server returned and its length; a frame never
    queries them; and in every execution of the loop from there, however
    many frames and signals, every state holds the list and the count
    unchanged, as the rest of the context. *)
Theorem monitors_fixed_after_initialize (env : XEnv) (m0 m1 : Machine)
  (k : nat) (st : state) :
  result (initialize env m0) = 0 ->
  app_data m1 = app_data (final (initialize env m0)) ->
  run k (entry m1) st ->
  filter is_monitor_query (events (initialize env m0))
  = [XineramaQueryScreens (env_display env)]
  /\ (forall (inp : FrameInput) (m : Machine),
         filter is_monitor_query (events (frame inp m)) = [])
  /\ exists screens : list XineramaScreenInfo,
      env_screens env = Some screens
      /\ screen_info (app_data m1) = Some screens
      /\ num_screens (app_data m1) = Z.of_nat (List.length screens)
      /\ screen_info (app_data (mach st)) = Some screens
      /\ num_screens (app_data (mach st)) = Z.of_nat (List.length screens)
      /\ app_data (mach st) = app_data m1.
Proof.
  intros Hr Hm Hrun.
  pose proof (initialize_outcome env m0) as O.
  destruct (first_failure env) as [s |].
  - destruct O as [Hf _]. rewrite Hr in Hf. discriminate.
  - destruct O as [_ [_ [Hq [screens [He [Hs Hn]]]]]].
    destruct (run_well_formed _ _ _ _ Hrun (entry_well_formed m1)) as [Ha _].
    split; [exact Hq |]. split; [apply frame_queries_no_monitors |].
    exists screens. rewrite Ha, Hm. auto 10.
Qed.

Lemma initialize_two_monitors_succeeds :
  result (initialize (env_with two_monitors) machine_start) = 0.
Proof. vm_compute. reflexivity. Qed.

Lemma monitors_fixed_after_initialize_witness :
  exists screens : list XineramaScreenInfo,
    env_screens (env_with two_monitors) = Some screens
    /\ screen_info (app_data machine_two_monitors) = Some screens
    /\ num_screens (app_data machine_two_monitors)
       = Z.of_nat (List.length screens)
    /\ screen_info (app_data (mach interrupted_state)) = Some screens
    /\ num_screens (app_data (mach interrupted_state))
       = Z.of_nat (List.length screens)
    /\ app_data (mach interrupted_state) = app_data machine_two_monitors.
Proof.
  apply (monitors_fixed_after_initialize (env_with two_monitors) machine_start
           machine_two_monitors 1 interrupted_state).
  - exact initialize_two_monitors_succeeds.
  - reflexivity.
  - exact interrupted_state_reached.
Defined.

(** The same for [main_loop] as a whole, when it returns. *)
Lemma main_loop_keeps_monitors (fuel : nat) (inputs : nat -> FrameInput)
  (m m' : Machine) (tr : list event) (screens : list XineramaScreenInfo) :
  screens_loaded (app_data m) screens ->
  main_loop fuel inputs 0 m = Some (m', tr) ->
  screens_loaded (app_data m') screens.
Proof.
  intros Hs H. now rewrite (main_loop_keeps_app_data _ _ _ _ _ _ H).
Qed.

(* ################################################################# *)
(** * Further properties *)

(* ================================================================= *)
(** ** More on the size of the window *)

Lemma sum_widths_bounds (l : list XineramaScreenInfo) :
  Forall sized_monitor l ->
  0 <= sum_widths l <= 32767 * Z.of_nat (List.length l).
Proof.
  induction 1 as [| s l [Hw _] _ IH]; cbn [sum_widths fold_right List.length].
  - lia.
  - fold (sum_widths l). lia.
Qed.

Lemma sized_widths_short (l : list XineramaScreenInfo) :
  Forall sized_monitor l -> Forall (fun s => is_short (width s)) l.
Proof.
  apply Forall_impl. intros s [Hw _]. unfold is_short. lia.
Qed.

(** The running height stays between the tallest monitor and the sum of the
    heights seen so far. *)
Lemma combine_height_from (l : list XineramaScreenInfo) (w0 h0 lo hi : Z) :
  Forall sized_monitor l ->
  0 <= lo <= h0 -> h0 <= hi ->
  hi + 32767 * Z.of_nat (List.length l) <= CInt.INT_MAX ->
  Z.max lo (max_height l) <= snd (fold_left combine_screen l (w0, h0))
  /\ snd (fold_left combine_screen l (w0, h0)) <= hi + sum_heights l.
Proof.
  revert w0 h0 lo hi. induction l as [| s l IH]; intros w0 h0 lo hi Hs Hlo Hhi Hb.
  - cbn. lia.
  - apply Forall_cons_iff in Hs as [[_ Hh] Hl].
    cbn [fold_left max_height sum_heights fold_right List.length] in *.
    fold (max_height l). fold (sum_heights l).
    unfold combine_screen at 2 4. cbn [fst snd].
    unfold CInt.INT_MAX in *.
    destruct (height s >? h0) eqn:E.
    + apply Z.gtb_lt in E.
      rewrite (to_int_id (h0 + height s))
        by (unfold CInt.INT_MIN, CInt.INT_MAX; lia).
      destruct (IH (CInt.to_int (w0 + width s)) (h0 + height s)
                  (Z.max lo (height s)) (hi + height s) Hl) as [I1 I2]; lia.
    + assert (E' : height s <= h0).
      { destruct (Z.gtb_spec (height s) h0); [discriminate | lia]. }
      rewrite (to_int_id (h0 + 0))
        by (unfold CInt.INT_MIN, CInt.INT_MAX; lia).
      destruct (IH (CInt.to_int (w0 + width s)) (h0 + 0)
                  (Z.max lo (height s)) (hi + height s) Hl) as [I1 I2]; lia.
Qed.

(** When no monitor is taller than the running height, it stays. *)
Lemma combine_height_stays (l : list XineramaScreenInfo) (w0 h0 : Z) :
  CInt.INT_MIN <= h0 <= CInt.INT_MAX ->
  Forall (fun s => height s <= h0) l ->
  snd (fold_left combine_screen l (w0, h0)) = h0.
Proof.
  intros Hr. revert w0. induction l as [| s l IH]; intros w0 Hs; [reflexivity |].
  apply Forall_cons_iff in Hs as [Hh Hl].
  cbn [fold_left]. unfold combine_screen at 2. cbn [fst snd].
  replace (height s >? h0) with false
    by (symmetry; destruct (Z.gtb_spec (height s) h0); [lia | reflexivity]).
  rewrite Z.add_0_r, (to_int_id h0) by exact Hr. now apply IH.
Qed.

(** X1.  Whenever [initialize] gets to create the window, it asks for it at
    (0, 0), with a width that is the sum of the widths of the monitors and
    the height the loop over the monitors computed, whether or not the
    later steps succeed. *)
Theorem window_request (env : XEnv) (screens : list XineramaScreenInfo)
  (v : XVisualInfo) :
  env_display env <> 0 ->
  env_screens env = Some screens ->
  env_visual env = Some v ->
  env_colormap env <> 0 ->
  Forall sized_monitor screens ->
  Z.of_nat (List.length screens) <= 65535 ->
  In (XCreateWindow (env_display env) (env_root env) 0 0
        (sum_widths screens) (snd (combined_size screens)) 0
        (depth v) (visual v) (env_colormap env))
     (events (initialize env machine_start)).
Proof.
  intros Hd Hs Hv Hc Hsized Hn.
  assert (Ew : CInt.to_uint (fst (combined_size screens)) = sum_widths screens).
  { rewrite combined_width_is_sum by (try apply sized_widths_short; assumption).
    pose proof (sum_widths_bounds screens Hsized). apply to_uint_id. lia. }
  assert (Eh : CInt.to_uint (snd (combined_size screens))
               = snd (combined_size screens)).
  { unfold combined_size.
    destruct (combine_height_from screens 0 0 0 0 Hsized) as [I1 I2];
      try (unfold CInt.INT_MAX; lia).
    assert (sum_heights screens <= 32767 * Z.of_nat (List.length screens)).
    { clear -Hsized. induction Hsized as [| s l [_ Hh] _ IH];
        cbn [sum_heights fold_right List.length]; [lia |].
      fold (sum_heights l). lia. }
    apply to_uint_id. lia. }
  destruct env as [d sc root vi cm win ctx atom glew vb ib cb].
  cbn [env_display env_screens env_visual env_colormap env_root] in *.
  subst sc vi. apply Z.eqb_neq in Hd, Hc.
  unfold initialize.
  destruct (win =? 0) eqn:Ewin;
    [| destruct (ctx =? 0) eqn:Ectx; [| destruct glew]];
    init_compute; rewrite Hd; init_compute; rewrite Hc; init_compute;
    rewrite ?Ewin; init_compute; rewrite ?Ectx; init_compute;
    rewrite Ew, Eh; cbn [In]; do 4 right; left; reflexivity.
Qed.

Lemma window_request_witness :
  In (XCreateWindow 4096 1 0 0 3840 2280 0 24 33 7)
     (events (initialize (env_with two_monitors) machine_start)).
Proof.
  apply (window_request (env_with two_monitors) two_monitors
           {| visual := 33; depth := 24 |}).
  - discriminate.
  - reflexivity.
  - reflexivity.
  - discriminate.
  - repeat constructor; cbn; lia.
  - cbn. lia.
Defined.

(** X2.  For monitors of real sizes the height asked for is never less than
    the tallest monitor and never more than the sum of the heights. *)
Theorem combined_height_bounds (screens : list XineramaScreenInfo) :
  Forall sized_monitor screens ->
  Z.of_nat (List.length screens) <= 65535 ->
  max_height screens <= snd (combined_size screens) <= sum_heights screens.
Proof.
  intros Hs Hn. unfold combined_size.
  destruct (combine_height_from screens 0 0 0 0 Hs) as [I1 I2];
    try (unfold CInt.INT_MAX; lia).
Qed.

Lemma combined_height_bounds_witness :
  max_height two_monitors <= snd (combined_size two_monitors)
  <= sum_heights two_monitors.
Proof.
  apply (combined_height_bounds two_monitors).
  - repeat constructor; cbn; lia.
  - cbn. lia.
Defined.

(** X3.  When no monitor is taller than the first one, the height asked for
    is the height of the first, which is then the tallest. *)
Theorem combined_height_first_tallest (s : XineramaScreenInfo)
  (rest : list XineramaScreenInfo) :
  0 < height s <= 32767 ->
  Forall (fun s' => 0 <= height s' <= height s) rest ->
  snd (combined_size (s :: rest)) = height s
  /\ max_height (s :: rest) = height s.
Proof.
  intros Hh Hrest. split.
  - unfold combined_size. cbn [fold_left].
    unfold combine_screen at 2. cbn [fst snd].
    replace (height s >? 0) with true by (symmetry; apply Z.gtb_lt; lia).
    rewrite (to_int_id (0 + height s))
      by (unfold CInt.INT_MIN, CInt.INT_MAX; lia).
    apply combine_height_stays.
    + unfold CInt.INT_MIN, CInt.INT_MAX. lia.
    + eapply Forall_impl; [| exact Hrest]. intros s' H. cbn beta in H. lia.
  - cbn [max_height fold_right]. fold (max_height rest).
    assert (max_height rest <= height s).
    { induction Hrest as [| s' l Hs' _ IH]; cbn [max_height fold_right].
      - lia.
      - fold (max_height l). lia. }
    lia.
Qed.

Lemma combined_height_first_tallest_witness :
  snd (combined_size twin_monitors) = 1080 /\ max_height twin_monitors = 1080.
Proof.
  apply (combined_height_first_tallest (monitor 0 0 1920 1080)
           [monitor 1920 0 1920 1080]).
  - cbn. lia.
  - repeat constructor; cbn; lia.
Defined.

(* ================================================================= *)
(** ** The context [initialize] leaves *)

Lemma initialize_context (env : XEnv) :
  let a := app_data (final (initialize env machine_start)) in
  display a = env_display env
  /\ screen_info a = (if reached env QueryMonitors then env_screens env else None)
  /\ num_screens a
     = match screen_info a with
       | Some l => Z.of_nat (List.length l)
       | None => 0
       end
  /\ visual_info a = (if reached env ChooseVisual then env_visual env else None)
  /\ color_map a = (if reached env CreateColormap then env_colormap env else 0)
  /\ window a = (if reached env CreateWindow then env_window env else 0)
  /\ glx_context a = (if reached env CreateContext then env_glx_context env else 0)
  /\ vertex_buffer a
     = (if reached env CreateBuffers then env_vertex_buffer env else 0)
  /\ index_buffer a
     = (if reached env CreateBuffers then env_index_buffer env else 0)
  /\ color_buffer a
     = (if reached env CreateBuffers then env_color_buffer env else 0).
Proof.
  destruct env as [d sc root vi cm win ctx atom glew vb ib cb].
  unfold reached, first_failure, step_fails.
  cbn [find env_display env_screens env_visual env_colormap env_window
       env_glx_context env_glew_ok env_vertex_buffer env_index_buffer
       env_color_buffer is_some negb].
  cbv zeta. unfold initialize, machine_start.
  destruct (d =? 0) eqn:Ed.
  { init_compute. rewrite Ed. init_compute. repeat split; reflexivity. }
  destruct sc as [screens |]; cbn [is_some negb].
  2:{ init_compute. rewrite Ed. init_compute. repeat split; reflexivity. }
  destruct vi as [v |]; cbn [is_some negb].
  2:{ init_compute. rewrite Ed. init_compute. repeat split; reflexivity. }
  destruct (cm =? 0) eqn:Ecm.
  { init_compute. rewrite Ed. init_compute. rewrite Ecm. init_compute.
    repeat split; reflexivity. }
  destruct (win =? 0) eqn:Ewin.
  { init_compute. rewrite Ed. init_compute. rewrite Ecm. init_compute.
    rewrite Ewin. init_compute. repeat split; reflexivity. }
  destruct (ctx =? 0) eqn:Ectx.
  { init_compute. rewrite Ed. init_compute. rewrite Ecm. init_compute.
    rewrite Ewin. init_compute. rewrite Ectx. init_compute.
    repeat split; reflexivity. }
  destruct glew; cbn [negb].
  2:{ init_compute. rewrite Ed. init_compute. rewrite Ecm. init_compute.
      rewrite Ewin. init_compute. rewrite Ectx. init_compute.
      repeat split; reflexivity. }
  init_compute. rewrite Ed. init_compute. rewrite Ecm. init_compute.
  rewrite Ewin. init_compute. rewrite Ectx. init_compute.
  repeat split; reflexivity.
Qed.

Lemma reached_display (env : XEnv) (s : init_step) :
  s <> OpenDisplay -> reached env s = true -> env_display env <> 0.
Proof.
  unfold reached, first_failure. cbn [find step_fails].
  intros Hs. destruct (env_display env =? 0) eqn:E.
  - destruct s; cbn; congruence.
  - intros _. now apply Z.eqb_neq.
Qed.

(** X4.  From the zeroed context of [main], whatever the server answers,
    [initialize] leaves in each member the answer to the call that acquires
    it when that call was made, and zero or null when it was not: nothing
    is set that was not acquired, and every answer is kept. *)
Theorem initialize_fills_context (env : XEnv) :
  let a := app_data (final (initialize env machine_start)) in
  display a = env_display env
  /\ screen_info a = (if reached env QueryMonitors then env_screens env else None)
  /\ num_screens a
     = match screen_info a with
       | Some l => Z.of_nat (List.length l)
       | None => 0
       end
  /\ visual_info a = (if reached env ChooseVisual then env_visual env else None)
  /\ color_map a = (if reached env CreateColormap then env_colormap env else 0)
  /\ window a = (if reached env CreateWindow then env_window env else 0)
  /\ glx_context a = (if reached env CreateContext then env_glx_context env else 0)
  /\ vertex_buffer a
     = (if reached env CreateBuffers then env_vertex_buffer env else 0)
  /\ index_buffer a
     = (if reached env CreateBuffers then env_index_buffer env else 0)
  /\ color_buffer a
     = (if reached env CreateBuffers then env_color_buffer env else 0).
Proof. exact (initialize_context env). Qed.

(** X5.  The releases [cleanup] owes the context [initialize] leaves never
    name a null display: the window, the colormap and the GLX context are
    released on the display that was opened, and the display is closed only
    if it was opened. *)
Theorem releases_after_initialize_have_display (env : XEnv) (e : event) :
  In e (releases (app_data (final (initialize env machine_start)))) ->
  match e with
  | XFreeColormap d _ | XDestroyWindow d _ | GlXDestroyContext d _
  | XCloseDisplay d => d = env_display env /\ d <> 0
  | _ => True
  end.
Proof.
  destruct (initialize_context env)
    as [Hd [_ [_ [_ [Hc [Hw [Hx _]]]]]]].
  unfold releases. rewrite !in_app_iff, !in_guarded, !nonzero_true.
  rewrite Hd, Hc, Hw, Hx.
  destruct (visual_info _) as [vi |]; destruct (screen_info _) as [l |];
    cbn [In]; intros H; decompose [or] H; clear H;
    repeat match goal with
      | H : _ /\ _ |- _ => destruct H
      | H : False |- _ => destruct H
      end;
    subst e; try exact I; (split; [reflexivity |]);
    try assumption.
  all: first
    [ destruct (reached env CreateColormap) eqn:R; [| congruence];
      now apply (reached_display env CreateColormap)
    | destruct (reached env CreateWindow) eqn:R; [| congruence];
      now apply (reached_display env CreateWindow)
    | destruct (reached env CreateContext) eqn:R; [| congruence];
      now apply (reached_display env CreateContext) ].
Qed.

Lemma releases_after_initialize_have_display_witness :
  4096 = env_display env_no_monitors /\ 4096 <> 0.
Proof.
  apply (releases_after_initialize_have_display env_no_monitors
           (XCloseDisplay 4096)).
  vm_compute. left. reflexivity.
Defined.

(* ================================================================= *)
(** ** More on the elapsed time and the sleep *)

Lemma ns_and_us (t0 t1 : timespec) :
  ns_between t0 t1 - 1000 * us_between t0 t1
  = Z.rem (tv_nsec t1 - tv_nsec t0) 1000.
Proof.
  unfold ns_between, us_between.
  pose proof (Z.quot_rem (tv_nsec t1 - tv_nsec t0) 1000 ltac:(lia)). lia.
Qed.

(** X6.  For two readings in order and at most 2147.483 seconds apart, the
    microseconds the loop computes are within one microsecond of the time
    that passed: they fall short of it by less than a microsecond when the
    nanosecond field did not decrease, and exceed it by less than a
    microsecond when it did, because the division truncates toward zero. *)
Theorem elapsed_within_a_microsecond (t0 t1 : timespec) :
  valid_timespec t0 -> valid_timespec t1 ->
  0 <= ns_between t0 t1 <= 2147483000000 ->
  let e := frame_time_elapsed t0 t1 in
  0 <= e
  /\ (tv_nsec t0 <= tv_nsec t1 -> 0 <= ns_between t0 t1 - 1000 * e < 1000)
  /\ (tv_nsec t1 < tv_nsec t0 -> 0 <= 1000 * e - ns_between t0 t1 < 1000).
Proof.
  intros V0 V1 Hns e.
  pose proof (ns_and_us t0 t1) as R.
  destruct V0 as [Hs0 Hn0]. destruct V1 as [Hs1 Hn1].
  pose proof (Z.rem_bound_abs (tv_nsec t1 - tv_nsec t0) 1000 ltac:(lia)) as Ra.
  assert (Hord : tv_sec t0 < tv_sec t1
                 \/ (tv_sec t0 = tv_sec t1 /\ tv_nsec t0 <= tv_nsec t1)).
  { unfold ns_between in Hns. lia. }
  assert (Hmax : us_between t0 t1 <= CInt.INT_MAX).
  { unfold CInt.INT_MAX. unfold ns_between in *. unfold us_between in *. lia. }
  destruct (frame_time_elapsed_exact t0 t1 (conj Hs0 Hn0) (conj Hs1 Hn1)
              Hord Hmax) as [E He].
  fold (us_between t0 t1) in E. subst e. rewrite E in *.
  split; [exact He |]. split; intros Hn.
  - pose proof (Z.rem_nonneg (tv_nsec t1 - tv_nsec t0) 1000 ltac:(lia)
                  ltac:(lia)). lia.
  - pose proof (Z.rem_nonpos (tv_nsec t1 - tv_nsec t0) 1000 ltac:(lia)
                  ltac:(lia)). lia.
Qed.

Lemma elapsed_within_a_microsecond_witness :
  0 <= frame_time_elapsed (start_time quick_frame) (end_time quick_frame)
  /\ (tv_nsec (start_time quick_frame) <= tv_nsec (end_time quick_frame) ->
      0 <= ns_between (start_time quick_frame) (end_time quick_frame)
           - 1000 * frame_time_elapsed (start_time quick_frame)
                      (end_time quick_frame) < 1000)
  /\ (tv_nsec (end_time quick_frame) < tv_nsec (start_time quick_frame) ->
      0 <= 1000 * frame_time_elapsed (start_time quick_frame)
                    (end_time quick_frame)
           - ns_between (start_time quick_frame) (end_time quick_frame) < 1000).
Proof.
  apply (elapsed_within_a_microsecond (start_time quick_frame)
           (end_time quick_frame)).
  - unfold valid_timespec. cbn. lia.
  - unfold valid_timespec. cbn. lia.
  - unfold ns_between. cbn. lia.
Defined.

Lemma to_int_wraps (z : Z) :
  2147483648 <= z <= 4294967295 -> CInt.to_int z = z - 4294967296.
Proof.
  intros H. unfold CInt.to_int, CInt.wrap_signed.
  change (2 ^ (32 - 1)) with 2147483648. change (2 ^ 32) with 4294967296.
  replace (z + 2147483648) with ((z - 2147483648) + 1 * 4294967296) by lia.
  rewrite Z.mod_add by lia. rewrite Z.mod_small by lia. lia.
Qed.

(** X7.  The microseconds are kept in an [int]: a frame that took between
    2147500315 and 4294967295 microseconds (35.8 to 71.6 minutes) is seen as
    a negative time, and the loop then sleeps for 4294983962 microseconds
    less the time the frame took, although the frame overran its budget. *)
Theorem overlong_frame_sleeps (inp : FrameInput) (m : Machine) :
  valid_timespec (start_time inp) -> valid_timespec (end_time inp) ->
  2147500315 <= us_between (start_time inp) (end_time inp) <= 4294967295 ->
  frame_time_elapsed (start_time inp) (end_time inp)
  = us_between (start_time inp) (end_time inp) - 4294967296
  /\ filter is_sleep (events (frame inp m))
     = [Usleep (4294983962 - us_between (start_time inp) (end_time inp))].
Proof.
  intros [Hs0 Hn0] [Hs1 Hn1] Hd.
  assert (E : frame_time_elapsed (start_time inp) (end_time inp)
              = us_between (start_time inp) (end_time inp) - 4294967296).
  { unfold frame_time_elapsed. unfold us_between in *.
    destruct (quot_1000_bounds (tv_nsec (end_time inp) - tv_nsec (start_time inp)))
      as [Qp Qn].
    set (q := Z.quot (tv_nsec (end_time inp) - tv_nsec (start_time inp)) 1000) in *.
    rewrite (to_long_id (tv_sec (end_time inp) - tv_sec (start_time inp))) by lia.
    rewrite (to_long_id (tv_nsec (end_time inp) - tv_nsec (start_time inp))) by lia.
    rewrite (to_long_id ((tv_sec (end_time inp) - tv_sec (start_time inp)) * 1000000))
      by lia.
    rewrite to_long_id by lia.
    apply to_int_wraps. lia. }
  split; [exact E |].
  rewrite frame_sleeps, E, pace_sleeps.
  - rewrite target_frame_duration. cbn [events snd]. f_equal. f_equal. lia.
  - rewrite target_frame_duration. unfold CInt.INT_MAX. lia.
  - rewrite target_frame_duration. lia.
Qed.

Lemma overlong_frame_sleeps_witness :
  frame_time_elapsed (start_time stalled_frame) (end_time stalled_frame)
  = us_between (start_time stalled_frame) (end_time stalled_frame) - 4294967296
  /\ filter is_sleep (events (frame stalled_frame machine_start))
     = [Usleep (4294983962
                - us_between (start_time stalled_frame) (end_time stalled_frame))].
Proof.
  apply (overlong_frame_sleeps stalled_frame machine_start).
  - unfold valid_timespec. cbn. lia.
  - unfold valid_timespec. cbn. lia.
  - unfold us_between. cbn. lia.
Defined.

(** X8.  A frame sleeps at most once, and never for zero microseconds nor
    for a negative count turned into a huge unsigned one: the argument of
    [usleep] is between 1 and [INT_MAX]. *)
Theorem sleep_is_positive (inp : FrameInput) (m : Machine) (u : Z) :
  In (Usleep u) (events (frame inp m)) ->
  1 <= u <= CInt.INT_MAX
  /\ filter is_sleep (events (frame inp m)) = [Usleep u].
Proof.
  intros Hin.
  assert (Hf : In (Usleep u) (filter is_sleep (events (frame inp m)))).
  { apply filter_In. split; [exact Hin | reflexivity]. }
  rewrite frame_sleeps, pace_events in *.
  pose proof (to_int_range
                (TARGET_FRAME_DURATION
                 - frame_time_elapsed (start_time inp) (end_time inp))) as R.
  set (t := CInt.to_int
              (TARGET_FRAME_DURATION
               - frame_time_elapsed (start_time inp) (end_time inp))) in *.
  destruct (t >? 0) eqn:E; [| destruct Hf].
  apply Z.gtb_lt in E. destruct Hf as [Hu | []].
  unfold CInt.INT_MAX in *.
  rewrite to_uint_id in * by lia.
  assert (Hu' : t = u) by congruence.
  subst u. split; [lia | reflexivity].
Qed.

Lemma sleep_is_positive_witness :
  1 <= 16662 <= CInt.INT_MAX
  /\ filter is_sleep (events (frame quick_frame machine_start)) = [Usleep 16662].
Proof.
  apply (sleep_is_positive quick_frame machine_start 16662).
  vm_compute. do 4 right. left. reflexivity.
Defined.

(* ================================================================= *)
(** ** Signals and the life of the loop *)

Lemma with_terminate_twice (v w : Z) (m : Machine) :
  with_terminate v (with_terminate w m) = with_terminate v m.
Proof. reflexivity. Qed.

Lemma signal_handler_by_kind (signum : Z) (m : Machine) :
  final (signal_handler signum m)
  = if terminating signum then with_terminate 1 m else m.
Proof. unfold signal_handler, terminating. now destruct (_ || _). Qed.

(** X9.  Handling a list of signals comes to one thing: the flag is 1 if
    SIGINT or SIGTERM is among them, whatever else is, and the memory is
    untouched if neither is; no call is made and the flag is never
    cleared. *)
Theorem deliver_sets_or_keeps (sigs : list Z) (m : Machine) :
  final (deliver sigs m)
  = (if existsb terminating sigs then with_terminate 1 m else m)
  /\ events (deliver sigs m) = []
  /\ (terminate m = 1 -> terminate (final (deliver sigs m)) = 1).
Proof.
  split; [| split; [apply deliver_events | apply deliver_flag_stays]].
  unfold deliver. revert m. induction sigs as [| s sigs IH]; intros m.
  - reflexivity.
  - cbn [map existsb]. rewrite sequence_cons_final, IH, signal_handler_by_kind.
    destruct (terminating s); cbn [orb]; [| reflexivity].
    destruct (existsb terminating sigs); reflexivity.
Qed.

Lemma deliver_quiet (sigs : list Z) (m : Machine) :
  existsb terminating sigs = false -> final (deliver sigs m) = m.
Proof.
  unfold deliver. revert m. induction sigs as [| s sigs IH]; intros m H.
  - reflexivity.
  - cbn [map existsb] in *. apply orb_false_iff in H as [Hs Ht].
    rewrite sequence_cons_final, signal_handler_by_kind, Hs. now apply IH.
Qed.

Lemma deliver_loud (sigs : list Z) (m : Machine) :
  existsb terminating sigs = true -> terminate (final (deliver sigs m)) = 1.
Proof.
  intros H. apply existsb_exists in H as [sig [Hin Hsig]].
  apply (deliver_sets_flag sigs sig m Hin).
  unfold terminating in Hsig. apply orb_true_iff in Hsig.
  destruct Hsig as [H | H]; apply Z.eqb_eq in H; auto.
Qed.

Lemma frame_keeps_flag (inp : FrameInput) (m : Machine) :
  terminate (final (frame inp m)) = terminate m.
Proof. now rewrite frame_final. Qed.

Lemma frame_swaps_once (inp : FrameInput) (m : Machine) :
  List.length (filter is_swap (events (frame inp m))) = 1%nat.
Proof.
  rewrite frame_events, !filter_app, pace_events.
  assert (P : filter is_swap
                (events (sequence
                   (flat_map render_screen
                      (seq 0 (Z.to_nat (num_screens (app_data m)))))
                   (angles_advanced m))) = []).
  { generalize (angles_advanced m) as m1. intros m1.
    rewrite sequence_events
      by (apply Forall_flat_map, Forall_forall; intros i _;
          apply render_screen_preserves).
    rewrite flat_map_twice.
    induction (seq 0 _) as [| i l IH]; [reflexivity |].
    cbn [flat_map]. rewrite filter_app, IH, app_nil_r.
    unfold render_screen, with_screen.
    cbn [flat_map app]. unfold bind, field.
    cbn [events result final fst snd app].
    destruct (screen_info (app_data m1)) as [screens |]; [| reflexivity].
    destruct (nth_error screens i); reflexivity. }
  rewrite P. destruct (_ >? 0); reflexivity.
Qed.

(** X10.  Without SIGINT or SIGTERM the loop never returns: from a clear
    flag, if no frame sees one of the two signals, [main_loop] is still
    running after any number of tests of the flag. *)
Theorem main_loop_runs_until_signalled (inputs : nat -> FrameInput)
  (m : Machine) (fuel k : nat) :
  terminate m = 0 ->
  (forall j, existsb terminating (signals (inputs j)) = false) ->
  main_loop fuel inputs k m = None.
Proof.
  intros Hm Hq. revert k m Hm. induction fuel as [| fuel IH]; intros k m Hm.
  - reflexivity.
  - cbn [main_loop]. rewrite Hm. cbn [Z.eqb].
    rewrite IH; [reflexivity |].
    rewrite frame_then_signals_final, deliver_quiet by apply Hq.
    now rewrite frame_keeps_flag.
Qed.

Lemma main_loop_runs_until_signalled_witness :
  main_loop 1000 (frame_inputs world_no_signal) 0 machine_two_monitors = None.
Proof.
  apply (main_loop_runs_until_signalled (frame_inputs world_no_signal)
           machine_two_monitors 1000 0).
  - reflexivity.
  - intros j. reflexivity.
Defined.

(** X11.  When the first frame to see SIGINT or SIGTERM is frame [k], the
    loop runs [k + 1] whole frames and returns: it reads the flag [k + 2]
    times, the last time as 1, swaps buffers [k + 1] times, and leaves the
    memory that [k + 1] frames make. *)
Theorem main_loop_runs_to_the_signal (inputs : nat -> FrameInput)
  (k extra j : nat) (m : Machine) :
  terminate m = 0 ->
  (forall i, (i < k)%nat ->
             existsb terminating (signals (inputs (j + i)%nat)) = false) ->
  existsb terminating (signals (inputs (j + k)%nat)) = true ->
  exists tr : list event,
    main_loop (k + 2 + extra) inputs j m
    = Some (after_frames (S k) inputs j m, tr)
    /\ filter is_flag_read tr = repeat (ReadTerminate 0) (S k) ++ [ReadTerminate 1]
    /\ List.length (filter is_swap tr) = S k.
Proof.
  revert j m. induction k as [| k IH]; intros j m Hm Hq Hs.
  - rewrite Nat.add_0_r in Hs. cbn [Nat.add main_loop after_frames].
    rewrite Hm. cbn [Z.eqb].
    pose proof (deliver_loud _ (final (frame (inputs j) m)) Hs) as H1.
    rewrite <- frame_then_signals_final in H1. rewrite H1. cbn [Z.eqb].
    eexists. split; [reflexivity |].
    rewrite frame_then_signals_events. cbn [filter is_flag_read is_swap].
    rewrite !filter_app, frame_reads_no_flag. cbn [filter is_flag_read is_swap app].
    split; [reflexivity |].
    rewrite app_nil_r. apply frame_swaps_once.
  - replace (S k + 2 + extra)%nat with (S (k + 2 + extra)) by lia.
    cbn [main_loop]. rewrite Hm. cbn [Z.eqb].
    set (m1 := final ((frame (inputs j);; deliver (signals (inputs j))) m)).
    assert (Hm1 : terminate m1 = 0).
    { unfold m1. rewrite frame_then_signals_final, deliver_quiet.
      - now rewrite frame_keeps_flag.
      - specialize (Hq 0%nat ltac:(lia)). now rewrite Nat.add_0_r in Hq. }
    destruct (IH (S j) m1 Hm1) as [tr [E [Hf Hw]]].
    + intros i Hi. specialize (Hq (S i) ltac:(lia)).
      now replace (S j + i)%nat with (j + S i)%nat by lia.
    + now replace (S j + k)%nat with (j + S k)%nat by lia.
    + rewrite E. eexists. split; [reflexivity |].
      rewrite frame_then_signals_events.
      cbn [filter is_flag_read is_swap].
      rewrite !filter_app, frame_reads_no_flag, Hf, length_app, Hw.
      rewrite frame_swaps_once.
      cbn [app repeat]. split; reflexivity.
Qed.

Lemma main_loop_runs_to_the_signal_witness :
  exists tr : list event,
    main_loop (1 + 2 + 0) (frame_inputs world_two_frames) 0 machine_two_monitors
    = Some (after_frames 2 (frame_inputs world_two_frames) 0 machine_two_monitors,
            tr)
    /\ filter is_flag_read tr
       = repeat (ReadTerminate 0) 2 ++ [ReadTerminate 1]
    /\ List.length (filter is_swap tr) = 2%nat.
Proof.
  apply (main_loop_runs_to_the_signal (frame_inputs world_two_frames) 1 0 0
           machine_two_monitors).
  - reflexivity.
  - intros i Hi. assert (i = 0%nat) as -> by lia. reflexivity.
  - reflexivity.
Defined.

(** X12.  A SIGINT or SIGTERM that arrives while [initialize] runs does not
    interrupt it: when every step succeeds, [main] still acquires
    everything, then finds the flag set at the first test, draws no frame,
    releases the whole context and exits with status 0. *)
Theorem signal_during_initialize (w : World) (fuel : nat) :
  first_failure (x_env w) = None ->
  existsb terminating (init_signals w) = true ->
  main (S fuel) w
  = Some ([Signal SIGINT; Signal SIGTERM]
          ++ events (initialize (x_env w) machine_start)
          ++ [ReadTerminate 1]
          ++ releases (app_data (final (initialize (x_env w) machine_start)))
          ++ [Exit EXIT_SUCCESS], EXIT_SUCCESS).
Proof.
  intros Hf Hs. rewrite main_unfold. cbv zeta.
  pose proof (initialize_outcome (x_env w) machine_start) as O.
  rewrite Hf in O. destruct O as [Hr _]. rewrite Hr. cbn [Z.eqb negb].
  cbn [main_loop].
  rewrite (deliver_loud _ _ Hs). cbn [Z.eqb].
  now rewrite deliver_keeps_app_data.
Qed.

Lemma signal_during_initialize_witness :
  main 1 world_early_signal
  = Some ([Signal SIGINT; Signal SIGTERM]
          ++ events (initialize (x_env world_early_signal) machine_start)
          ++ [ReadTerminate 1]
          ++ releases (app_data (final (initialize (x_env world_early_signal)
                                          machine_start)))
          ++ [Exit EXIT_SUCCESS], EXIT_SUCCESS).
Proof.
  apply (signal_during_initialize world_early_signal 0).
  - vm_compute. reflexivity.
  - reflexivity.
Defined.

(* ================================================================= *)
(** ** The angles from frame to frame *)

Lemma deliver_keeps_angles (sigs : list Z) (m : Machine) :
  rotation_angle_x (final (deliver sigs m)) = rotation_angle_x m
  /\ rotation_angle_y (final (deliver sigs m)) = rotation_angle_y m.
Proof.
  unfold deliver. revert m. induction sigs as [| s sigs IH]; intros m.
  - split; reflexivity.
  - cbn [map]. rewrite sequence_cons_final.
    destruct (IH (final (signal_handler s m))) as [Hx Hy].
    rewrite Hx, Hy, signal_handler_by_kind.
    destruct (terminating s); split; reflexivity.
Qed.

Lemma angles_after_frames (n : nat) (inputs : nat -> FrameInput) (k : nat)
  (m : Machine) :
  (rotation_angle_x (after_frames n inputs k m),
   rotation_angle_y (after_frames n inputs k m))
  = Nat.iter n update_rotation_angles (rotation_angle_x m, rotation_angle_y m).
Proof.
  revert k m. induction n as [| n IH]; intros k m; [reflexivity |].
  cbn [after_frames]. rewrite IH, Nat.iter_succ_r.
  rewrite frame_then_signals_final.
  destruct (deliver_keeps_angles (signals (inputs k)) (final (frame (inputs k) m)))
    as [Hx Hy].
  rewrite Hx, Hy, frame_final. unfold angles_advanced, with_rotation.
  cbn [rotation_angle_x rotation_angle_y].
  now destruct (update_rotation_angles (rotation_angle_x m, rotation_angle_y m)).
Qed.

(** X13.  In the loop, from both angles at 0, after [n] frames both angles
    are the [float] of [n mod 720] half degrees, whatever the clock
    readings and the signals: the two angles are always equal, and the
    rotation repeats every 720 frames. *)
Theorem angles_in_the_loop (n : nat) (inputs : nat -> FrameInput) (k : nat)
  (m : Machine) :
  rotation_angle_x m = f_0_0 -> rotation_angle_y m = f_0_0 ->
  rotation_angle_x (after_frames n inputs k m)
  = half_degrees (Z.of_nat n mod 720)
  /\ rotation_angle_y (after_frames n inputs k m)
     = rotation_angle_x (after_frames n inputs k m)
  /\ rotation_angle_x (after_frames (n + 720) inputs k m)
     = rotation_angle_x (after_frames n inputs k m).
Proof.
  intros Hx Hy.
  pose proof (angles_after_frames n inputs k m) as A.
  pose proof (angles_after_frames (n + 720) inputs k m) as B.
  rewrite Hx, Hy, angles_after in A, B.
  injection A as Ax Ay. injection B as Bx By.
  rewrite Ax, Ay, Bx. repeat split.
  f_equal. rewrite Nat2Z.inj_add. change (Z.of_nat 720) with (1 * 720).
  now rewrite Z.mod_add.
Qed.

Lemma angles_in_the_loop_witness :
  rotation_angle_x
    (after_frames 3 (frame_inputs world_no_signal) 0 machine_two_monitors)
  = half_degrees (Z.of_nat 3 mod 720)
  /\ rotation_angle_y
       (after_frames 3 (frame_inputs world_no_signal) 0 machine_two_monitors)
     = rotation_angle_x
         (after_frames 3 (frame_inputs world_no_signal) 0 machine_two_monitors)
  /\ rotation_angle_x
       (after_frames (3 + 720) (frame_inputs world_no_signal) 0
          machine_two_monitors)
     = rotation_angle_x
         (after_frames 3 (frame_inputs world_no_signal) 0 machine_two_monitors).
Proof.
  apply (angles_in_the_loop 3 (frame_inputs world_no_signal) 0
           machine_two_monitors); reflexivity.
Defined.

(* ================================================================= *)
(** ** [main_loop] as an execution of the loop statement by statement *)

Lemma run_statements (ps : list (Prog unit)) (m : Machine) (t : list event) :
  run (List.length ps)
    {| mach := m; ctl := InBody ps; issued := t |}
    {| mach := final (sequence ps m); ctl := InBody [];
       issued := t ++ events (sequence ps m) |}.
Proof.
  revert m t. induction ps as [| p ps IH]; intros m t.
  - rewrite sequence_nil. cbn [final events fst snd List.length].
    rewrite app_nil_r. apply run_done.
  - cbn [List.length]. eapply run_prog; [apply step_stmt |].
    rewrite sequence_cons_final, sequence_cons_events, app_assoc.
    apply IH.
Qed.

Lemma run_signals (sigs : list Z) (m : Machine) (c : control) (t : list event) :
  run 0 {| mach := m; ctl := c; issued := t |}
        {| mach := final (deliver sigs m); ctl := c; issued := t |}.
Proof.
  unfold deliver. revert m. induction sigs as [| s sigs IH]; intros m.
  - apply run_done.
  - cbn [map]. rewrite sequence_cons_final.
    destruct (terminating s) eqn:E.
    + eapply run_signal; [| apply IH].
      apply (step_signal s {| mach := m; ctl := c; issued := t |}).
      unfold terminating in E. apply orb_true_iff in E.
      destruct E as [E | E]; apply Z.eqb_eq in E; auto.
    + rewrite signal_handler_by_kind, E. apply IH.
Qed.

Lemma run_trans (n1 n2 : nat) (a b c : state) :
  run n1 a b -> run n2 b c -> run (n1 + n2) a c.
Proof.
  induction 1 as [s | n s1 s2 s3 Hs _ IH | n s1 s2 s3 Hs _ IH]; intros H2.
  - exact H2.
  - cbn [Nat.add]. eapply run_prog; [exact Hs | now apply IH].
  - eapply run_signal; [exact Hs | now apply IH].
Qed.

Lemma frame_final_as_body (inp : FrameInput) (m : Machine) :
  final (sequence (loop_body inp (num_screens (app_data m))) m)
  = final (frame inp m).
Proof. unfold frame. now rewrite bind_final, field_final, field_result. Qed.

Lemma main_loop_succ (fuel : nat) (inputs : nat -> FrameInput) (k : nat)
  (m : Machine) :
  main_loop (S fuel) inputs k m
  = if terminate m =? 0 then
      match main_loop fuel inputs (S k)
              (final ((frame (inputs k) ;; deliver (signals (inputs k))) m)) with
      | Some (m', tr) =>
          Some (m', ReadTerminate (terminate m)
                      :: events ((frame (inputs k) ;; deliver (signals (inputs k))) m)
                      ++ tr)
      | None => None
      end
    else Some (m, [ReadTerminate (terminate m)]).
Proof. reflexivity. Qed.

(** X14.  Whenever [main_loop] returns, with the signals of each frame
    handled at its end, its memory and its trace are those of an execution
    of the loop taken statement by statement that has left the loop: what
    holds of every such execution holds of [main_loop]. *)
Theorem main_loop_is_an_execution (fuel : nat) (inputs : nat -> FrameInput)
  (k : nat) (m m' : Machine) (tr : list event) :
  main_loop fuel inputs k m = Some (m', tr) ->
  exists n : nat,
    run n (entry m) {| mach := m'; ctl := Returned; issued := tr |}.
Proof.
  intros H.
  enough (G : forall t, exists n,
               run n {| mach := m; ctl := AtTest; issued := t |}
                     {| mach := m'; ctl := Returned; issued := t ++ tr |})
    by exact (G []).
  revert k m tr H. induction fuel as [| fuel IH]; intros k m tr H t.
  - discriminate.
  - rewrite main_loop_succ in H. destruct (terminate m =? 0) eqn:E.
    + destruct (main_loop fuel inputs (S k) _) as [[m2 tr2] |] eqn:E2;
        [| discriminate].
      assert (Hm : m2 = m') by congruence.
      assert (Ht : ReadTerminate (terminate m)
                     :: events ((frame (inputs k) ;; deliver (signals (inputs k))) m)
                     ++ tr2 = tr) by congruence.
      clear H. subst m' tr. apply Z.eqb_eq in E.
      destruct (IH _ _ _ E2
                  (t ++ ReadTerminate (terminate m)
                     :: events (frame (inputs k) m))) as [n R].
      rewrite frame_then_signals_final in R.
      exists (1 + (List.length (loop_body (inputs k) (num_screens (app_data m)))
                   + (1 + (0 + n))))%nat.
      eapply run_trans.
      { eapply run_prog; [apply (step_enter m t (inputs k) E) | apply run_done]. }
      eapply run_trans; [apply run_statements |].
      eapply run_trans.
      { eapply run_prog; [apply step_again | apply run_done]. }
      eapply run_trans; [apply (run_signals (signals (inputs k))) |].
      rewrite frame_final_as_body, frame_as_body.
      rewrite frame_then_signals_events.
      replace ((t ++ [ReadTerminate (terminate m)])
               ++ events (frame (inputs k) m))
        with (t ++ ReadTerminate (terminate m) :: events (frame (inputs k) m))
        by (now rewrite <- app_assoc).
      replace (t ++ ReadTerminate (terminate m)
                 :: events (frame (inputs k) m) ++ tr2)
        with ((t ++ ReadTerminate (terminate m)
                 :: events (frame (inputs k) m)) ++ tr2)
        by (now rewrite <- app_assoc).
      exact R.
    + injection H as <- <-. apply Z.eqb_neq in E. exists 1%nat.
      eapply run_prog; [apply (step_leave m t E) | apply run_done].
Qed.

Lemma main_loop_is_an_execution_witness :
  exists (m' : Machine) (tr : list event) (n : nat),
    main_loop 3 (frame_inputs world_two_frames) 0 machine_two_monitors
    = Some (m', tr)
    /\ run n (entry machine_two_monitors)
         {| mach := m'; ctl := Returned; issued := tr |}.
Proof.
  destruct (main_loop_exits 1 0 (frame_inputs world_two_frames) 0 SIGTERM
              machine_two_monitors (or_introl eq_refl) (or_intror eq_refl))
    as [m' [tr E]].
  destruct (main_loop_is_an_execution _ _ _ _ _ _ E) as [n R].
  exists m', tr, n. split; [exact E | exact R].
Defined.

(* ================================================================= *)
(** ** The order of the releases *)

Lemma sorted_guarded (b : bool) (r : nat) (l : list nat) :
  StronglySorted le l -> Forall (le r) l ->
  StronglySorted le ((if b then [r] else []) ++ l) /\
  Forall (le r) ((if b then [r] else []) ++ l).
Proof.
  intros Hs Hf. destruct b; cbn [app].
  - split; [now constructor | constructor; [lia | exact Hf]].
  - now split.
Qed.

(** X15.  Whatever is set, [cleanup] issues its releases in one order:
    buffers, colormap, window, GLX context, visual information, monitor
    list, display.  So the buffers are deleted before the GLX context is
    destroyed, and nothing is released after the display is closed. *)
Theorem cleanup_order (m : Machine) :
  StronglySorted le (map release_rank (events (cleanup m))).
Proof.
  rewrite cleanup_events. unfold releases. rewrite !map_app.
  destruct (visual_info (app_data m)) as [vi |];
    destruct (screen_info (app_data m)) as [l |];
    destruct (nonzero (vertex_buffer (app_data m))),
      (nonzero (index_buffer (app_data m))),
      (nonzero (color_buffer (app_data m))),
      (nonzero (color_map (app_data m))),
      (nonzero (window (app_data m))),
      (nonzero (glx_context (app_data m))),
      (nonzero (display (app_data m)));
    cbn [map app release_rank];
    repeat (constructor; [| repeat (constructor; try lia)]);
    constructor.
Qed.

(* ################################################################# *)
(** * The loop of [main]: frames, the flag and the sleep *)

Lemma frame_trace_loaded (inp : FrameInput) (m : Machine)
  (screens : list XineramaScreenInfo) :
  screens_loaded (app_data m) screens ->
  events (frame inp m)
  = whole_frame (app_data m) screens
      (rotation_angle_x (angles_advanced m)) (rotation_angle_y (angles_advanced m))
      (paced_sleep (frame_time_elapsed (start_time inp) (end_time inp))).
Proof.
  intros [Hs Hn]. unfold whole_frame, paced_sleep.
  rewrite frame_events, Hn, Nat2Z.id.
  rewrite passes_events by exact Hs.
  rewrite pace_events. reflexivity.
Qed.

Lemma angles_advanced_after (i : nat) (inputs : nat -> FrameInput) (j : nat)
  (m : Machine) :
  (rotation_angle_x (angles_advanced (after_frames i inputs j m)),
   rotation_angle_y (angles_advanced (after_frames i inputs j m)))
  = Nat.iter (S i) update_rotation_angles (rotation_angle_x m, rotation_angle_y m).
Proof.
  rewrite Nat.iter_succ, <- angles_after_frames with (inputs := inputs) (k := j).
  generalize (after_frames i inputs j m) as m1. intros m1.
  unfold angles_advanced, with_rotation. cbn [rotation_angle_x rotation_angle_y].
  now destruct (update_rotation_angles (rotation_angle_x m1, rotation_angle_y m1)).
Qed.

Lemma flat_map_of_map {A B C : Type} (f : B -> list C) (g : A -> B)
  (l : list A) :
  flat_map f (map g l) = flat_map (fun x => f (g x)) l.
Proof.
  induction l as [| x l IH]; cbn [map flat_map]; [reflexivity |].
  now rewrite IH.
Qed.

(** The trace of [main_loop] when frame [j + k] is the first to see one of
    the two signals. *)
Lemma main_loop_trace (inputs : nat -> FrameInput) (k extra j : nat)
  (m : Machine) :
  terminate m = 0 ->
  (forall i, (i < k)%nat ->
             existsb terminating (signals (inputs (j + i)%nat)) = false) ->
  existsb terminating (signals (inputs (j + k)%nat)) = true ->
  main_loop (k + 2 + extra) inputs j m
  = Some (after_frames (S k) inputs j m,
          flat_map (fun i => ReadTerminate 0
                             :: events (frame (inputs (j + i)%nat)
                                          (after_frames i inputs j m)))
            (seq 0 (S k))
          ++ [ReadTerminate 1])
  /\ terminate (after_frames (S k) inputs j m) = 1.
Proof.
  revert j m. induction k as [| k IH]; intros j m Hm Hq Hs.
  - rewrite Nat.add_0_r in Hs.
    pose proof (deliver_loud _ (final (frame (inputs j) m)) Hs) as H1.
    rewrite <- frame_then_signals_final in H1.
    change (0 + 2 + extra)%nat with (S (S extra)).
    rewrite main_loop_succ, Hm. cbn [Z.eqb].
    rewrite main_loop_succ, H1. cbn [Z.eqb].
    rewrite frame_then_signals_events.
    cbn [seq flat_map after_frames]. rewrite Nat.add_0_r, app_nil_r.
    split; [| exact H1]. rewrite <- app_comm_cons. reflexivity.
  - replace (S k + 2 + extra)%nat with (S (k + 2 + extra)) by lia.
    rewrite main_loop_succ, Hm. cbn [Z.eqb].
    set (m1 := final ((frame (inputs j);; deliver (signals (inputs j))) m)).
    assert (Hm1 : terminate m1 = 0).
    { unfold m1. rewrite frame_then_signals_final, deliver_quiet.
      - now rewrite frame_keeps_flag.
      - specialize (Hq 0%nat ltac:(lia)). now rewrite Nat.add_0_r in Hq. }
    destruct (IH (S j) m1 Hm1) as [E Ht].
    + intros i Hi. specialize (Hq (S i) ltac:(lia)).
      now replace (S j + i)%nat with (j + S i)%nat by lia.
    + now replace (S j + k)%nat with (j + S k)%nat by lia.
    + rewrite E. rewrite frame_then_signals_events.
      change (after_frames (S (S k)) inputs j m)
        with (after_frames (S k) inputs (S j) m1).
      split; [| exact Ht]. f_equal. f_equal.
      rewrite app_comm_cons, app_assoc. f_equal.
      change (seq 0 (S (S k))) with (0%nat :: seq 1 (S k)).
      cbn [flat_map]. rewrite Nat.add_0_r.
      change (after_frames 0 inputs j m) with m. f_equal.
      rewrite <- seq_shift, flat_map_of_map.
      apply flat_map_ext. intros i.
      replace (j + S i)%nat with (S j + i)%nat by lia. reflexivity.
Qed.

Lemma main_loop_run (fuel : nat) (inputs : nat -> FrameInput) (k : nat)
  (m m' : Machine) (tr t : list event) :
  main_loop fuel inputs k m = Some (m', tr) ->
  exists n : nat,
    run n {| mach := m; ctl := AtTest; issued := t |}
          {| mach := m'; ctl := Returned; issued := t ++ tr |}.
Proof.
  revert k m tr t. induction fuel as [| fuel IH]; intros k m tr t H.
  - discriminate.
  - rewrite main_loop_succ in H. destruct (terminate m =? 0) eqn:E.
    + destruct (main_loop fuel inputs (S k) _) as [[m2 tr2] |] eqn:E2;
        [| discriminate].
      assert (Hm : m2 = m') by congruence.
      assert (Ht : ReadTerminate (terminate m)
                     :: events ((frame (inputs k) ;; deliver (signals (inputs k))) m)
                     ++ tr2 = tr) by congruence.
      clear H. subst m' tr. apply Z.eqb_eq in E.
      destruct (IH _ _ _ (t ++ ReadTerminate (terminate m)
                            :: events (frame (inputs k) m)) E2) as [n R].
      rewrite frame_then_signals_final in R.
      exists (1 + (List.length (loop_body (inputs k) (num_screens (app_data m)))
                   + (1 + (0 + n))))%nat.
      eapply run_trans.
      { eapply run_prog; [apply (step_enter m t (inputs k) E) | apply run_done]. }
      eapply run_trans; [apply run_statements |].
      eapply run_trans.
      { eapply run_prog; [apply step_again | apply run_done]. }
      eapply run_trans; [apply (run_signals (signals (inputs k))) |].
      rewrite frame_final_as_body, frame_as_body.
      rewrite frame_then_signals_events.
      replace ((t ++ [ReadTerminate (terminate m)])
               ++ events (frame (inputs k) m))
        with (t ++ ReadTerminate (terminate m) :: events (frame (inputs k) m))
        by (now rewrite <- app_assoc).
      replace (t ++ ReadTerminate (terminate m)
                 :: events (frame (inputs k) m) ++ tr2)
        with ((t ++ ReadTerminate (terminate m)
                 :: events (frame (inputs k) m)) ++ tr2)
        by (now rewrite <- app_assoc).
      exact R.
    + assert (Hm : m = m') by congruence.
      assert (Ht : [ReadTerminate (terminate m)] = tr) by congruence.
      clear H. subst m' tr. apply Z.eqb_neq in E. exists 1%nat.
      eapply run_prog; [apply (step_leave m t E) | apply run_done].
Qed.

(** From a state with the flag set, the statements left and the test lead
    out of the loop. *)
Lemma flagged_completion (a : AppData) (st : state) :
  well_formed a st -> terminate (mach st) = 1 ->
  exists st' : state,
    run (steps_left st) st st' /\ ctl st' = Returned
    /\ issued st' = issued st ++ remaining st.
Proof.
  intros [_ Hc] Ht. destruct st as [m c t]. unfold steps_left, remaining.
  cbn [mach ctl issued] in *. destruct c as [| rest |].
  - eexists. split; [| split].
    + eapply run_prog; [apply step_leave; lia | apply run_done].
    + reflexivity.
    + reflexivity.
  - destruct Hc as [Hb _].
    assert (Ht' : terminate (final (sequence rest m)) = 1).
    { rewrite flag_blind_terminate; [exact Ht | now apply sequence_flag_blind]. }
    eexists. split; [| split].
    + eapply run_trans; [apply run_statements |].
      eapply run_prog; [apply step_again |].
      eapply run_prog; [apply step_leave; lia | apply run_done].
    + reflexivity.
    + cbn [issued]. rewrite Ht', Ht, app_assoc. reflexivity.
  - eexists. split; [apply run_done | split; [reflexivity |]].
    cbn [issued]. now rewrite app_nil_r.
Qed.

Lemma frame_of_loop (inputs : nat -> FrameInput) (m : Machine)
  (screens : list XineramaScreenInfo) (i : nat) :
  screens_loaded (app_data m) screens ->
  events (frame (inputs i) (after_frames i inputs 0 m))
  = calls_of_frame inputs m screens i.
Proof.
  intros Hs. unfold calls_of_frame. cbv zeta.
  rewrite <- (angles_advanced_after i inputs 0 m). cbn [fst snd].
  rewrite <- (after_frames_keeps_app_data i inputs 0 m) in Hs.
  rewrite (frame_trace_loaded _ _ screens Hs).
  now rewrite after_frames_keeps_app_data.
Qed.

(** C6.  Take [main_loop] entered with a clear flag on a context that holds
    its monitors, and let frame [k] be the first during which SIGINT or
    SIGTERM arrives.  Then [main_loop] returns, with the flag set and the
    context as it was, and its trace is [k + 1] times one read of the flag
    that finds 0 followed by the calls of a whole frame (clock, clear, a
    draw pass per monitor, swap, clock, sleep, flush), then the one read
    that finds 1: the flag is read once per frame, before the frame, the
    frame of the signal is completed and no other is begun.  That run is an
    execution of the loop taken statement by statement.  In every such
    execution, signals arriving between any two statements, the trace is
    whole frames each after its read of the flag, every frame being those
    calls, and the loop is left only by a read at the test; and from any
    state where the flag is set the loop does reach its end, in exactly the
    steps left, having issued the rest of the frame in progress and the
    read that leaves, and nothing else. *)
Theorem loop_completes_frame_then_exits (inputs : nat -> FrameInput)
  (k extra : nat) (m : Machine) (screens : list XineramaScreenInfo) :
  screens_loaded (app_data m) screens ->
  terminate m = 0 ->
  (forall i, (i < k)%nat -> existsb terminating (signals (inputs i)) = false) ->
  existsb terminating (signals (inputs k)) = true ->
  let trace :=
    flat_map (fun i => ReadTerminate 0 :: calls_of_frame inputs m screens i)
      (seq 0 (S k))
    ++ [ReadTerminate 1] in
  (exists m' : Machine,
      main_loop (k + 2 + extra) inputs 0 m = Some (m', trace)
      /\ terminate m' = 1
      /\ app_data m' = app_data m
      /\ exists n : nat,
          run n (entry m) {| mach := m'; ctl := Returned; issued := trace |})
  /\ (forall (inp : FrameInput) (m1 : Machine),
         app_data m1 = app_data m ->
         events (frame inp m1)
         = whole_frame (app_data m) screens
             (rotation_angle_x (angles_advanced m1))
             (rotation_angle_y (angles_advanced m1))
             (paced_sleep (frame_time_elapsed (start_time inp) (end_time inp)))
         /\ filter is_flag_read (events (frame inp m1)) = [])
  /\ (forall (n : nat) (st : state),
         run n (entry m) st ->
         well_formed (app_data m) st
         /\ (terminate (mach st) = 1 ->
             (exists st' : state,
                 run (steps_left st) st st' /\ ctl st' = Returned
                 /\ issued st' = issued st ++ remaining st)
             /\ forall (n' : nat) (st' : state),
                 run n' st st' ->
                 terminate (mach st') = 1
                 /\ issued st' ++ remaining st' = issued st ++ remaining st
                 /\ (n' + steps_left st' = steps_left st)%nat
                 /\ (ctl st' = Returned \/ exists st'', prog_step st' st''))).
Proof.
  intros Hs Hm Hq Hl trace. split; [| split].
  - destruct (main_loop_trace inputs k extra 0 m Hm Hq Hl) as [E Ht].
    assert (Et : flat_map
                   (fun i => ReadTerminate 0
                             :: events (frame (inputs (0 + i)%nat)
                                          (after_frames i inputs 0 m)))
                   (seq 0 (S k)) ++ [ReadTerminate 1] = trace).
    { unfold trace. f_equal. apply flat_map_ext. intros i.
      cbn [Nat.add]. now rewrite (frame_of_loop inputs m screens i Hs). }
    rewrite Et in E.
    exists (after_frames (S k) inputs 0 m).
    split; [exact E |]. split; [exact Ht |].
    split; [apply after_frames_keeps_app_data |].
    destruct (main_loop_run _ _ _ _ _ _ [] E) as [n R]. exists n. exact R.
  - intros inp m1 Ha. split; [| apply frame_reads_no_flag].
    rewrite <- Ha. apply frame_trace_loaded. now rewrite Ha.
  - intros n st Hrun.
    destruct (loop_exits_at_frame_boundary m n st Hrun) as [Hw [_ Hf]].
    split; [exact Hw |]. intros Ht. split.
    + now apply (flagged_completion (app_data m)).
    + intros n' st' Hrun'.
      destruct (Hf Ht n' st' Hrun') as [H1 [H2 [H3 [_ H5]]]]. auto.
Qed.

Lemma loop_completes_frame_then_exits_witness :
  exists m' : Machine,
    main_loop (1 + 2 + 0) (frame_inputs world_two_frames) 0 machine_two_monitors
    = Some (m',
            flat_map (fun i => ReadTerminate 0
                               :: calls_of_frame (frame_inputs world_two_frames)
                                    machine_two_monitors two_monitors i)
              (seq 0 2)
            ++ [ReadTerminate 1])
    /\ terminate m' = 1
    /\ app_data m' = app_data machine_two_monitors
    /\ exists n : nat,
        run n (entry machine_two_monitors)
          {| mach := m'; ctl := Returned;
             issued :=
               flat_map (fun i => ReadTerminate 0
                                  :: calls_of_frame (frame_inputs world_two_frames)
                                       machine_two_monitors two_monitors i)
                 (seq 0 2)
               ++ [ReadTerminate 1] |}.
Proof.
  apply (loop_completes_frame_then_exits (frame_inputs world_two_frames) 1 0
           machine_two_monitors two_monitors).
  - exact initialize_two_monitors_loaded.
  - reflexivity.
  - intros i Hi. assert (i = 0%nat) as -> by lia. reflexivity.
  - reflexivity.
Defined.

(** The calls of the two frames of that run, the second one too long to
    sleep, and the memory left. *)
Example two_frames_then_exit :
  main_loop 3 (frame_inputs world_two_frames) 0 machine_two_monitors
  = Some (with_terminate 1
            (with_rotation (half_degrees 2, half_degrees 2) machine_two_monitors),
          [ReadTerminate 0]
          ++ whole_frame (app_data machine_two_monitors) two_monitors
               (half_degrees 1) (half_degrees 1) [Usleep 16662]
          ++ [ReadTerminate 0]
          ++ whole_frame (app_data machine_two_monitors) two_monitors
               (half_degrees 2) (half_degrees 2) []
          ++ [ReadTerminate 1]).
Proof. vm_compute. reflexivity. Qed.

(** C4, on the code.  The frame of the sample took 3000 seconds,
    3000000000 microseconds, far over the budget of 16666; kept in an
    [int] that count is -1294967296, which is below the budget, and the
    frame sleeps 1294983962 microseconds more. *)
Theorem stalled_frame_sleeps (m : Machine) :
  us_between (start_time stalled_frame) (end_time stalled_frame) = 3000000000
  /\ TARGET_FRAME_DURATION
     <= us_between (start_time stalled_frame) (end_time stalled_frame)
  /\ frame_time_elapsed (start_time stalled_frame) (end_time stalled_frame)
     = -1294967296
  /\ filter is_sleep (events (frame stalled_frame m)) = [Usleep 1294983962].
Proof.
  split; [reflexivity |]. split; [vm_compute; discriminate |].
  split; [vm_compute; reflexivity |].
  rewrite frame_sleeps, pace_events. vm_compute. reflexivity.
Qed.

(** For a frame whose microseconds fit an [int], that is one of less than
    2147.483 seconds between two readings in order, the loop does as
    intended: under the budget it sleeps for the remainder, and from the
    budget on it does not sleep. *)
Lemma pacing_of_a_frame_in_range (inp : FrameInput) (m : Machine) :
  valid_timespec (start_time inp) -> valid_timespec (end_time inp) ->
  0 <= us_between (start_time inp) (end_time inp) <= CInt.INT_MAX ->
  tv_sec (start_time inp) < tv_sec (end_time inp)
  \/ (tv_sec (start_time inp) = tv_sec (end_time inp)
      /\ tv_nsec (start_time inp) <= tv_nsec (end_time inp)) ->
  let d := us_between (start_time inp) (end_time inp) in
  (d < TARGET_FRAME_DURATION ->
   filter is_sleep (events (frame inp m)) = [Usleep (TARGET_FRAME_DURATION - d)])
  /\ (TARGET_FRAME_DURATION <= d -> filter is_sleep (events (frame inp m)) = []).
Proof.
  intros V0 V1 [H0 Hmax] Hord d.
  destruct (frame_time_elapsed_exact _ _ V0 V1 Hord Hmax) as [E _].
  fold (us_between (start_time inp) (end_time inp)) in E. fold d in E.
  rewrite frame_sleeps, E. unfold CInt.INT_MAX in Hmax. fold d in H0, Hmax.
  rewrite target_frame_duration. split; intros H.
  - rewrite <- target_frame_duration. rewrite pace_sleeps; [reflexivity | |].
    + rewrite target_frame_duration. unfold CInt.INT_MAX. lia.
    + rewrite target_frame_duration. exact H.
  - rewrite pace_no_sleep; [reflexivity | |].
    + unfold CInt.INT_MAX. lia.
    + rewrite target_frame_duration. exact H.
Qed.
